(** * The wallet service of skycoin (src/wallet/service.go)

    A shallow embedding of [wallet.Service]: the registry of wallets held in
    memory, its first-address index, and every operation of the service.
    The service runs each operation under one lock ([serv.Lock] or
    [serv.RLock], released by [defer]), so an operation is modelled as one
    atomic step of a state-and-error monad over the [Service] record.

    The collaborators the service calls but does not define (wallet
    construction, the cipher package, the file system) are the fields of one
    record, [Collaborators]; their contracts are stated as propositions and
    appear as hypotheses of the theorems that need them. *)

From Stdlib Require Import ZArith NArith.
From stdpp Require Import base strings gmap list option.

Open Scope string_scope.

(** ** Errors and results *)

(** The sentinel errors the service returns, the errors built by
    [fmt.Errorf] in [NewService], and the errors of collaborators. *)
Inductive error : Type :=
| ErrWalletAPIDisabled
| ErrSeedAPIDisabled
| ErrWalletNotExist
| ErrWalletEncrypted
| ErrWalletNotEncrypted
| ErrWalletNotDeterministic
| ErrWalletRecoverSeedWrong
| ErrSeedUsed
| ErrWalletNameConflict
| ErrMissingPassword
| ErrInvalidPassword
| Errorf (msg : string)
| Wrapf (msg : string) (cause : error).

(** The outcome of a Go call that returns [(value, error)]: a value, an
    error, or a run-time panic (indexing [Entries[0]] of an empty slice). *)
Inductive Res (A : Type) : Type :=
| Ok (a : A)
| Fail (e : error)
| Panic.

Arguments Ok {A} a.
Arguments Fail {A} e.
Arguments Panic {A}.

Definition res_bind {A B : Type} (r : Res A) (k : A → Res B) : Res B :=
  match r with
  | Ok a => k a
  | Fail e => Fail e
  | Panic => Panic
  end.

(** A call that returns only [error]: [nil] is [None]. *)
Definition res_of_err (o : option error) : Res unit :=
  match o with
  | None => Ok tt
  | Some e => Fail e
  end.

Definition is_ok {A : Type} (r : Res A) : bool :=
  match r with
  | Ok _ => true
  | _ => false
  end.

(** ** Data model *)

Module cipher.

(** Modelled from the spec: the cipher package is not under src/.  An
    address is represented by its printable form, the value of
    [Address.String()], which is the key of the first-address index. *)
Definition Address : Type := string.

Definition String (a : Address) : string := a.

Definition PubKey : Type := list Byte.byte.

Definition SecKey : Type := list Byte.byte.

End cipher.

Definition CoinType : Type := string.

Definition CryptoType : Type := string.

Definition Password : Type := list Byte.byte.

Definition CryptoTypeScryptChacha20poly1305 : CryptoType := "scrypt-chacha20poly1305".

Definition WalletTypeDeterministic : string := "deterministic".

(** Modelled from the spec: [Entry] is not under src/ (spec 3,
    AddressEntry: address, public key, optional private key). *)
Record Entry : Type := {
  Address : cipher.Address;
  Public : cipher.PubKey;
  Secret : cipher.SecKey
}.

(** Modelled from the spec: the [Wallet] type is not under src/ (spec 3:
    id, label, coin type, crypto type, encrypted flag, entries, creation
    time, seed).  The fields are named after the accessors service.go
    calls: [Filename()], [Label()], [coin()], [Type()], [cryptoType()],
    [IsEncrypted()], [timestamp()], [seed()] and the field [Entries];
    [secrets] is the opaque encrypted payload of a locked wallet. *)
Record Wallet : Type := {
  Filename : string;
  Label : string;
  coin : CoinType;
  walletType : string;
  cryptoType : CryptoType;
  IsEncrypted : bool;
  timestamp : Z;
  seed : string;
  secrets : string;
  Entries : list Entry
}.

(** [w.setLabel(label)] *)
Definition setLabel (w : Wallet) (label : string) : Wallet :=
  {| Filename := Filename w; Label := label; coin := coin w;
     walletType := walletType w; cryptoType := cryptoType w;
     IsEncrypted := IsEncrypted w; timestamp := timestamp w;
     seed := seed w; secrets := secrets w; Entries := Entries w |}.

(** [w.setTimestamp(t)] *)
Definition setTimestamp (w : Wallet) (t : Z) : Wallet :=
  {| Filename := Filename w; Label := Label w; coin := coin w;
     walletType := walletType w; cryptoType := cryptoType w;
     IsEncrypted := IsEncrypted w; timestamp := t;
     seed := seed w; secrets := secrets w; Entries := Entries w |}.

(** The wallet with [more] appended to its entries. *)
Definition appendEntries (w : Wallet) (more : list Entry) : Wallet :=
  {| Filename := Filename w; Label := Label w; coin := coin w;
     walletType := walletType w; cryptoType := cryptoType w;
     IsEncrypted := IsEncrypted w; timestamp := timestamp w;
     seed := seed w; secrets := secrets w; Entries := Entries w ++ more |}.

(** [w.Entries[0].Address.String()]: panics on a wallet without entries. *)
Definition firstAddr (w : Wallet) : Res string :=
  match Entries w with
  | [] => Panic
  | e :: _ => Ok (cipher.String (Address e))
  end.

(** The same read as a partial function, for stating properties. *)
Definition first_address (w : Wallet) : option string :=
  match Entries w with
  | [] => None
  | e :: _ => Some (cipher.String (Address e))
  end.

(** [Wallets] is [map[string]*Wallet]. *)
Abbreviation Wallets := (gmap string Wallet).

Module Wallets.

(** Modelled from the spec: the methods of [Wallets] are not under src/.
    [add] inserts under the wallet's id and fails when the id is taken
    (spec 3: a WalletID is unique within the registry); service.go tests
    its error. *)
Definition add (wlts : Wallets) (w : Wallet) : Res Wallets :=
  match wlts !! Filename w with
  | Some _ => Fail ErrWalletNameConflict
  | None => Ok (<[Filename w := w]> wlts)
  end.

(** Modelled from the spec: [remove] is not under src/; it deletes the id
    from the map. *)
Definition remove (wlts : Wallets) (id : string) : Wallets := delete id wlts.

(** Modelled from the spec: [get] is not under src/; the wallet stored
    under the id, or nil. *)
Definition get (wlts : Wallets) (id : string) : option Wallet := wlts !! id.

(** Modelled from the spec: [set] is not under src/; it installs a copy of
    the wallet under the wallet's own id. *)
Definition set (wlts : Wallets) (w : Wallet) : Wallets := <[Filename w := w]> wlts.

(** Modelled from the spec: [containsDuplicate] is not under src/ (spec
    4.1: two wallets with the same first address).  The wallets are
    visited in the order of [map_to_list]; Go's order is unspecified, and
    only which of the duplicates is reported depends on it. *)
Fixpoint containsDuplicate_from (seen : gset string) (l : list (string * Wallet))
  : option (string * string) :=
  match l with
  | [] => None
  | (wltID, wlt) :: l' =>
      match Entries wlt with
      | [] => containsDuplicate_from seen l'
      | e :: _ =>
          let addr := cipher.String (Address e) in
          if decide (addr ∈ seen) then Some (wltID, addr)
          else containsDuplicate_from ({[addr]} ∪ seen) l'
      end
  end.

Definition containsDuplicate (wlts : Wallets) : option (string * string) :=
  containsDuplicate_from ∅ (map_to_list wlts).

(** Modelled from the spec: [containsEmpty] is not under src/ (spec 4.1:
    any wallet with zero entries). *)
Fixpoint containsEmpty_from (l : list (string * Wallet)) : option string :=
  match l with
  | [] => None
  | (wltID, wlt) :: l' =>
      match Entries wlt with
      | [] => Some wltID
      | _ :: _ => containsEmpty_from l'
      end
  end.

Definition containsEmpty (wlts : Wallets) : option string :=
  containsEmpty_from (map_to_list wlts).

End Wallets.

Module Config.

(** [Config]: wallet service config. *)
Record t : Type := {
  WalletDir : string;
  CryptoType : CryptoType;
  EnableWalletAPI : bool;
  EnableSeedAPI : bool
}.

End Config.

(** [NewConfig] creates a default Config. *)
Definition NewConfig : Config.t :=
  {| Config.WalletDir := "./";
     Config.CryptoType := CryptoTypeScryptChacha20poly1305;
     Config.EnableWalletAPI := false;
     Config.EnableSeedAPI := false |}.

Module Options.

(** Modelled from the spec: [Options] is not under src/; these are the
    fields service.go reads and writes. *)
Record t : Type := {
  Coin : CoinType;
  Label : string;
  Seed : string;
  Encrypt : bool;
  Password : Password;
  CryptoType : CryptoType;
  GenerateN : N
}.

End Options.

(** [Service]: the wallets, the config, and [firstAddrIDMap] (key: first
    address in wallet; value: wallet id).  The [sync.RWMutex] is not a
    field: every operation holds it from entry to return. *)
Record Service : Type := {
  wallets : Wallets;
  config : Config.t;
  firstAddrIDMap : gmap string string
}.

Definition with_wallets (serv : Service) (wlts : Wallets) : Service :=
  {| wallets := wlts; config := config serv;
     firstAddrIDMap := firstAddrIDMap serv |}.

Definition with_firstAddrIDMap (serv : Service) (m : gmap string string) : Service :=
  {| wallets := wallets serv; config := config serv; firstAddrIDMap := m |}.

(** ** Collaborators *)

(** Modelled from the spec: [BalancePair] is not under src/; the confirmed
    and predicted balances (coins, hours) of one address. *)
Record BalancePair : Type := {
  Confirmed : N * N;
  Predicted : N * N
}.

(** [BalanceGetter]: interface for getting the balance of given addresses. *)
Record BalanceGetter : Type := {
  GetBalanceOfAddrs : list cipher.Address → Res (list BalancePair)
}.

(** A caller-supplied callback, a Go func from a wallet pointer to error:
    it may mutate the wallet it is handed and returns an error or nil. *)
Definition Callback : Type := Wallet → Wallet * option error.

(** The functions service.go calls and does not define (spec 6): the file
    system, wallet construction and derivation, and the cryptographic
    guard.  A method that mutates its receiver returns the mutated wallet.
    [NewWalletFilename n] is the name produced by the n-th call of
    [NewWalletFilename()] within one operation. *)
Record Collaborators : Type := {
  MkdirAll : string → option error;
  removeBackupFiles : string → option error;
  LoadWallets : string → Res Wallets;
  NewWalletFilename : nat → string;
  NewWalletScanAhead : string → Options.t → BalanceGetter → Res Wallet;
  NewWallet : string → Options.t → Res Wallet;
  Save : Wallet → string → option error;
  Lock : Wallet → Password → CryptoType → Res Wallet;
  Unlock : Wallet → Password → Res Wallet;
  deriveAddresses : Wallet → N → Res (list Entry);
  GetSkycoinAddresses : Wallet → Res (list cipher.Address);
  GenerateDeterministicKeyPair : list Byte.byte → Res (cipher.PubKey * cipher.SecKey);
  addressConstructor : CoinType → cipher.PubKey → cipher.Address
}.

(** The same collaborators with another [Save]. *)
Definition with_Save (env : Collaborators) (sv : Wallet → string → option error)
  : Collaborators :=
  {| MkdirAll := MkdirAll env;
     removeBackupFiles := removeBackupFiles env;
     LoadWallets := LoadWallets env;
     NewWalletFilename := NewWalletFilename env;
     NewWalletScanAhead := NewWalletScanAhead env;
     NewWallet := NewWallet env;
     Save := sv;
     Lock := Lock env;
     Unlock := Unlock env;
     deriveAddresses := deriveAddresses env;
     GetSkycoinAddresses := GetSkycoinAddresses env;
     GenerateDeterministicKeyPair := GenerateDeterministicKeyPair env;
     addressConstructor := addressConstructor env |}.

(** A working disk, and a disk on which every write fails with [e]. *)
Definition save_ok : Wallet → string → option error := λ _ _, None.

Definition save_fails (e : error) : Wallet → string → option error := λ _ _, Some e.

(** ** The monad of service operations *)

Definition M (A : Type) : Type := Service → Res A * Service.

Definition ret {A : Type} (a : A) : M A := λ serv, (Ok a, serv).

Definition bind {A B : Type} (m : M A) (k : A → M B) : M B :=
  λ serv,
    match m serv with
    | (Ok a, serv') => k a serv'
    | (Fail e, serv') => (Fail e, serv')
    | (Panic, serv') => (Panic, serv')
    end.

Definition throw {A : Type} (e : error) : M A := λ serv, (Fail e, serv).

Definition lift {A : Type} (r : Res A) : M A := λ serv, (r, serv).

Definition gets {A : Type} (f : Service → A) : M A := λ serv, (Ok (f serv), serv).

Definition modify (f : Service → Service) : M unit := λ serv, (Ok tt, f serv).

Declare Scope svc_scope.
Delimit Scope svc_scope with svc.

Notation "'let*' x ':=' m 'in' k" := (bind m (λ x, k))
  (at level 10, x pattern, m at level 100, k at level 200) : svc_scope.
Notation "m ';;' k" := (bind m (λ _, k))
  (at level 100, k at level 200, right associativity) : svc_scope.
Notation "'let?' x ':=' r 'in' k" := (res_bind r (λ x, k))
  (at level 10, x pattern, r at level 100, k at level 200) : svc_scope.

Open Scope svc_scope.

(** ** Guarded access to a wallet's secrets *)

Section Guard.

Variable env : Collaborators.

(** Modelled from the spec: [Wallet.GenerateSkycoinAddresses] is not under
    src/ (spec 4.5: derives [num] new sequential addresses through the
    derivation collaborator, appends them to the entries, and returns only
    the new addresses).  The result is the mutated receiver and the return
    value. *)
Definition GenerateSkycoinAddresses (w : Wallet) (num : N)
  : Wallet * Res (list cipher.Address) :=
  match deriveAddresses env w num with
  | Ok es => (appendEntries w es, Ok (map Address es))
  | Fail e => (w, Fail e)
  | Panic => (w, Panic)
  end.

(** Modelled from the spec: [Wallet.GuardUpdate] is not under src/ (spec
    4.4: decrypt a working copy, run the callback on it, and on success
    re-encrypt the working copy with the same password; the result
    replaces the receiver).  On any failure the receiver is unchanged and
    the working copy is discarded.  [fn] may also hand a value back to its
    caller, as the closure of [NewAddresses] does. *)
Definition GuardUpdate {B : Type} (w : Wallet) (password : Password)
    (fn : Wallet → Wallet * Res B) : Res (Wallet * B) :=
  let? wlt := Unlock env w password in
  let '(wlt', r) := fn wlt in
  let? b := r in
  let? locked := Lock env wlt' password (cryptoType w) in
  Ok (locked, b).

(** Modelled from the spec: [Wallet.GuardView] is not under src/ (spec
    4.4: decrypt a working copy, run the callback on it for read-only
    inspection, discard the copy whatever the callback returns). *)
Definition GuardView {B : Type} (w : Wallet) (password : Password)
    (fn : Wallet → Wallet * Res B) : Res B :=
  let? wlt := Unlock env w password in
  snd (fn wlt).

End Guard.

(** A [Callback] seen as a function that hands back no value. *)
Definition run_callback (f : Callback) : Wallet → Wallet * Res unit :=
  λ w, let '(w', err) := f w in (w', res_of_err err).

(** ** The service *)

Section ServiceOps.

Variable env : Collaborators.

(** The guard that opens every operation:
    [if !serv.config.EnableWalletAPI { return ErrWalletAPIDisabled }]. *)
Definition checkWalletAPI : M unit :=
  λ serv,
    if Config.EnableWalletAPI (config serv) then (Ok tt, serv)
    else (Fail ErrWalletAPIDisabled, serv).

(** [w.Save(serv.config.WalletDir)] *)
Definition saveWallet (w : Wallet) : M unit :=
  λ serv, (res_of_err (Save env w (Config.WalletDir (config serv))), serv).

(** [serv.wallets.set(w)] *)
Definition setWallet (w : Wallet) : M unit :=
  modify (λ serv, with_wallets serv (Wallets.set (wallets serv) w)).

(** [setWallets]: replaces the wallets and records every wallet's first
    address in [firstAddrIDMap]. *)
Fixpoint setWallets_range (l : list (string * Wallet)) : M unit :=
  match l with
  | [] => ret tt
  | (wltID, wlt) :: l' =>
      let* addr := lift (firstAddr wlt) in
      modify (λ serv, with_firstAddrIDMap serv (<[addr := wltID]> (firstAddrIDMap serv)));;
      setWallets_range l'
  end.

Definition setWallets (wlts : Wallets) : M unit :=
  modify (λ serv, with_wallets serv wlts);;
  setWallets_range (map_to_list wlts).

(** [NewService]: new wallet service. *)
Definition NewService (c : Config.t) : Res Service :=
  let serv := {| wallets := ∅; config := c; firstAddrIDMap := ∅ |} in
  if negb (Config.EnableWalletAPI (config serv)) then Ok serv
  else
    match MkdirAll env (Config.WalletDir c) with
    | Some err => Fail (Wrapf "failed to create wallet directory" err)
    | None =>
    match removeBackupFiles env (Config.WalletDir (config serv)) with
    | Some err => Fail (Wrapf "remove .wlt.bak files failed" err)
    | None =>
    match LoadWallets env (Config.WalletDir (config serv)) with
    | Panic => Panic
    | Fail err => Fail (Wrapf "failed to load all wallets" err)
    | Ok w =>
    match Wallets.containsDuplicate w with
    | Some (wltID, addr) => Fail (Errorf "duplicate wallet found")
    | None =>
    match Wallets.containsEmpty w with
    | Some wltID => Fail (Errorf "empty wallet file found")
    | None =>
    match setWallets w serv with
    | (Ok _, serv') => Ok serv'
    | (Fail e, _) => Fail e
    | (Panic, _) => Panic
    end end end end end end.

(** [WalletDir] returns the configured wallet directory. *)
Definition WalletDir : M string :=
  checkWalletAPI;;
  gets (λ serv, Config.WalletDir (config serv)).

(** The first statement of [loadWallet]: service decides what crypto type
    the wallet should use. *)
Definition serviceCryptoType (ct : CryptoType) (options : Options.t) : Options.t :=
  if Options.Encrypt options then
    {| Options.Coin := Options.Coin options;
       Options.Label := Options.Label options;
       Options.Seed := Options.Seed options;
       Options.Encrypt := Options.Encrypt options;
       Options.Password := Options.Password options;
       Options.CryptoType := ct;
       Options.GenerateN := Options.GenerateN options |}
  else options.

(** [loadWallet] loads wallet from seed and scan the first N addresses. *)
Definition loadWallet (wltName : string) (options : Options.t) (bg : BalanceGetter)
  : M Wallet :=
  let* ct := gets (λ serv, Config.CryptoType (config serv)) in
  let options := serviceCryptoType ct options in
  let* w := lift (NewWalletScanAhead env wltName options bg) in
  let* addr := lift (firstAddr w) in
  let* idx := gets firstAddrIDMap in
  match idx !! addr with
  | Some _ => throw ErrSeedUsed
  | None =>
      let* wlts := gets wallets in
      let* wlts' := lift (Wallets.add wlts w) in
      modify (λ serv, with_wallets serv wlts');;
      let* dir := gets (λ serv, Config.WalletDir (config serv)) in
      match Save env w dir with
      | Some err =>
          modify (λ serv, with_wallets serv (Wallets.remove (wallets serv) (Filename w)));;
          throw err
      | None =>
          let* addr := lift (firstAddr w) in
          modify (λ serv,
            with_firstAddrIDMap serv (<[addr := Filename w]> (firstAddrIDMap serv)));;
          ret w
      end
  end.

(** [generateUniqueWalletFilename]: draws names until one is unused.  The
    loop has no bound in the source; [fuel] bounds the draws and [None]
    means the bound was reached. *)
Fixpoint generateUniqueWalletFilename_from (fuel n : nat) (serv : Service)
  : option string :=
  match fuel with
  | O => None
  | S fuel' =>
      let wltName := NewWalletFilename env n in
      match Wallets.get (wallets serv) wltName with
      | None => Some wltName
      | Some _ => generateUniqueWalletFilename_from fuel' (S n) serv
      end
  end.

Definition generateUniqueWalletFilename (fuel : nat) (serv : Service) : option string :=
  generateUniqueWalletFilename_from fuel 0 serv.

(** The name [CreateWallet] loads the wallet under: the given one, or a
    generated one when the given name is empty. *)
Definition resolveName (fuel : nat) (wltName : string) (serv : Service) : option string :=
  if decide (wltName = "") then generateUniqueWalletFilename fuel serv
  else Some wltName.

(** [CreateWallet] creates a wallet with the given wallet file name and
    options.  [None]: the search for an unused name did not end within
    [fuel] draws. *)
Definition CreateWallet (fuel : nat) (wltName : string) (options : Options.t)
    (bg : BalanceGetter) (serv : Service) : option (Res Wallet * Service) :=
  if negb (Config.EnableWalletAPI (config serv)) then
    Some (Fail ErrWalletAPIDisabled, serv)
  else
    match resolveName fuel wltName serv with
    | None => None
    | Some wltName => Some (loadWallet wltName options bg serv)
    end.

(** [getWallet] returns the clone of the wallet of given id. *)
Definition getWallet (wltID : string) : M Wallet :=
  let* w := gets (λ serv, Wallets.get (wallets serv) wltID) in
  match w with
  | None => throw ErrWalletNotExist
  | Some w => ret w
  end.

(** [EncryptWallet] encrypts wallet with password. *)
Definition EncryptWallet (wltID : string) (password : Password) : M Wallet :=
  checkWalletAPI;;
  let* w := getWallet wltID in
  if IsEncrypted w then throw ErrWalletEncrypted
  else
    let* ct := gets (λ serv, Config.CryptoType (config serv)) in
    let* w := lift (Lock env w password ct) in
    saveWallet w;;
    setWallet w;;
    ret w.

(** [DecryptWallet] decrypts wallet with password. *)
Definition DecryptWallet (wltID : string) (password : Password) : M Wallet :=
  checkWalletAPI;;
  let* w := getWallet wltID in
  if negb (IsEncrypted w) then throw ErrWalletNotEncrypted
  else
    let* unlockWlt := lift (Unlock env w password) in
    saveWallet unlockWlt;;
    setWallet unlockWlt;;
    ret unlockWlt.

(** [NewAddresses] generate address entries in given wallet. *)
Definition NewAddresses (wltID : string) (password : Password) (num : N)
  : M (list cipher.Address) :=
  checkWalletAPI;;
  let* w := getWallet wltID in
  let f := λ wlt, GenerateSkycoinAddresses env wlt num in
  let* (w, addrs) :=
    if IsEncrypted w then lift (GuardUpdate env w password f)
    else if negb (length password =? 0)%nat then throw ErrWalletNotEncrypted
    else
      let '(w', r) := f w in
      let* addrs := lift r in
      ret (w', addrs) in
  saveWallet w;;
  setWallet w;;
  ret addrs.

(** [GetSkycoinAddresses] returns all addresses in given wallet. *)
Definition GetSkycoinAddressesOf (wltID : string) : M (list cipher.Address) :=
  checkWalletAPI;;
  let* w := getWallet wltID in
  lift (GetSkycoinAddresses env w).

(** [GetWallet] returns wallet by id. *)
Definition GetWallet (wltID : string) : M Wallet :=
  checkWalletAPI;;
  getWallet wltID.

(** [GetWallets] returns all wallet clones. *)
Definition GetWallets : M Wallets :=
  checkWalletAPI;;
  gets wallets.

(** [UpdateWalletLabel] updates the wallet label. *)
Definition UpdateWalletLabel (wltID label : string) : M unit :=
  checkWalletAPI;;
  let* w := getWallet wltID in
  let w := setLabel w label in
  saveWallet w;;
  setWallet w.

(** [UnloadWallet] removes wallet of given wallet id from the service. *)
Definition UnloadWallet (wltID : string) : M unit :=
  checkWalletAPI;;
  let* wlt := gets (λ serv, Wallets.get (wallets serv) wltID) in
  match wlt with
  | Some wlt =>
      match Entries wlt with
      | e :: _ =>
          let addr := cipher.String (Address e) in
          modify (λ serv, with_firstAddrIDMap serv (delete addr (firstAddrIDMap serv)))
      | [] => ret tt
      end
  | None => ret tt
  end;;
  modify (λ serv, with_wallets serv (Wallets.remove (wallets serv) wltID)).

(** [GetWalletSeed] returns seed of encrypted wallet of given wallet id. *)
Definition GetWalletSeed (wltID : string) (password : Password) : M string :=
  checkWalletAPI;;
  let* seedAPI := gets (λ serv, Config.EnableSeedAPI (config serv)) in
  if negb seedAPI then throw ErrSeedAPIDisabled
  else
    let* w := getWallet wltID in
    if negb (IsEncrypted w) then throw ErrWalletNotEncrypted
    else lift (GuardView env w password (λ wlt, (wlt, Ok (seed wlt)))).

(** [UpdateSecrets] opens a wallet for modification of secret data and
    saves it safely. *)
Definition UpdateSecrets (wltID : string) (password : Password) (f : Callback)
  : M unit :=
  checkWalletAPI;;
  let* w := getWallet wltID in
  let* w :=
    if IsEncrypted w then
      let* (w', _) := lift (GuardUpdate env w password (run_callback f)) in
      ret w'
    else if negb (length password =? 0)%nat then throw ErrWalletNotEncrypted
    else
      let '(w', r) := run_callback f w in
      lift r;;
      ret w' in
  saveWallet w;;
  setWallet w.

(** [Update] opens a wallet for modification of non-secret data and saves
    it safely. *)
Definition Update (wltID : string) (f : Callback) : M unit :=
  checkWalletAPI;;
  let* w := getWallet wltID in
  let '(w, r) := run_callback f w in
  lift r;;
  saveWallet w;;
  setWallet w.

(** [ViewSecrets] opens a wallet for reading secret data. *)
Definition ViewSecrets (wltID : string) (password : Password) (f : Callback)
  : M unit :=
  checkWalletAPI;;
  let* w := getWallet wltID in
  if IsEncrypted w then lift (GuardView env w password (run_callback f))
  else if negb (length password =? 0)%nat then throw ErrWalletNotEncrypted
  else lift (snd (run_callback f w)).

(** [View] opens a wallet for reading non-secret data. *)
Definition View (wltID : string) (f : Callback) : M unit :=
  checkWalletAPI;;
  let* w := getWallet wltID in
  lift (snd (run_callback f w)).

(** The options [RecoverWallet] hands to [NewWallet]. *)
Definition recoverOptions (w : Wallet) (seed : string) (password : Password)
  : Options.t :=
  {| Options.Coin := coin w;
     Options.Label := Label w;
     Options.Seed := seed;
     Options.Encrypt := negb (length password =? 0)%nat;
     Options.Password := password;
     Options.CryptoType := cryptoType w;
     Options.GenerateN := N.of_nat (length (Entries w)) |}.

(** [w.Entries[0].Address]: panics on a wallet without entries. *)
Definition firstEntryAddress (w : Wallet) : Res cipher.Address :=
  match Entries w with
  | [] => Panic
  | e :: _ => Ok (Address e)
  end.

(** [RecoverWallet] recovers an encrypted wallet from seed.  The recovered
    wallet will be encrypted with the new password, if provided. *)
Definition RecoverWallet (wltName seed : string) (password : Password) : M Wallet :=
  checkWalletAPI;;
  let* w := getWallet wltName in
  if negb (IsEncrypted w) then throw ErrWalletNotEncrypted
  else if negb (bool_decide (walletType w = WalletTypeDeterministic)) then
    throw ErrWalletNotDeterministic
  else
    let* (pk, _) := lift (GenerateDeterministicKeyPair env (String.list_byte_of_string seed)) in
    let addr := addressConstructor env (coin w) pk in
    let* first := lift (firstEntryAddress w) in
    if negb (bool_decide (addr = first)) then throw ErrWalletRecoverSeedWrong
    else
      let* w2 := lift (NewWallet env wltName (recoverOptions w seed password)) in
      let w2 := setTimestamp w2 (timestamp w) in
      saveWallet w2;;
      setWallet w2;;
      ret w2.

End ServiceOps.

(** ** Contracts of the collaborators *)

(** Two wallets with the same id and the same first address. *)
Definition same_identity (w w' : Wallet) : Prop :=
  Filename w' = Filename w ∧ first_address w' = first_address w.

(** [LoadWallets] files every wallet under its own id. *)
Definition LoadWallets_keyed (env : Collaborators) : Prop :=
  ∀ dir wlts id w,
    LoadWallets env dir = Ok wlts → wlts !! id = Some w → Filename w = id.

(** Locking and unlocking change neither the id nor the addresses. *)
Definition Lock_keeps_identity (env : Collaborators) : Prop :=
  ∀ w password ct w', Lock env w password ct = Ok w' → same_identity w w'.

Definition Unlock_keeps_identity (env : Collaborators) : Prop :=
  ∀ w password w', Unlock env w password = Ok w' → same_identity w w'.

(** A wallet that [Lock] returns is encrypted. *)
Definition Lock_encrypts (env : Collaborators) : Prop :=
  ∀ w password ct w', Lock env w password ct = Ok w' → IsEncrypted w' = true.

(** A wallet built from a seed has the given name, and its first address
    is the address of the seed's deterministic key pair for its coin. *)
Definition NewWallet_from_seed (env : Collaborators) : Prop :=
  ∀ name o w,
    NewWallet env name o = Ok w →
    Filename w = name ∧
    ∃ pk sk,
      GenerateDeterministicKeyPair env (String.list_byte_of_string (Options.Seed o))
        = Ok (pk, sk) ∧
      first_address w
        = Some (cipher.String (addressConstructor env (Options.Coin o) pk)).

(** Modelled from the spec: [NewWallet] is not under src/ (spec 4.2 and
    4.6: the wallet is constructed from the options: name, label, coin,
    the configured number of entries, optional immediate encryption).
    The crypto type of the options is the scheme of that encryption: it
    is promised of the wallet only when the options ask to encrypt. *)
Definition NewWallet_carries_options (env : Collaborators) : Prop :=
  ∀ name o w,
    NewWallet env name o = Ok w →
    Filename w = name ∧
    Label w = Options.Label o ∧
    coin w = Options.Coin o ∧
    (Options.Encrypt o = true → cryptoType w = Options.CryptoType o) ∧
    IsEncrypted w = Options.Encrypt o ∧
    ((0 < Options.GenerateN o)%N →
       N.of_nat (length (Entries w)) = Options.GenerateN o).

Record CollaboratorsOK (env : Collaborators) : Prop := {
  ok_LoadWallets : LoadWallets_keyed env;
  ok_Lock : Lock_keeps_identity env;
  ok_Unlock : Unlock_keeps_identity env;
  ok_NewWallet : NewWallet_from_seed env
}.

(** A callback that changes neither the id nor the first address of the
    wallet it is handed, whenever it returns nil. *)
Definition keeps_identity (f : Callback) : Prop :=
  ∀ w, snd (f w) = None → same_identity w (fst (f w)).

(** ** Invariants of the registry *)

(** Every wallet is filed under its own id. *)
Definition keys_match (serv : Service) : Prop :=
  map_Forall (λ id w, Filename w = id) (wallets serv).

(** Every wallet has a first address, and the index maps it to the
    wallet's id. *)
Definition wallets_indexed (serv : Service) : Prop :=
  map_Forall
    (λ id w, (first_address w ≫= λ addr, firstAddrIDMap serv !! addr) = Some id)
    (wallets serv).

(** Every entry of the index is the first address of the wallet it names. *)
Definition index_exact (serv : Service) : Prop :=
  map_Forall
    (λ addr id, (wallets serv !! id ≫= first_address) = Some addr)
    (firstAddrIDMap serv).

(** The invariant of spec 3 on the first-address index. *)
Definition index_inv (serv : Service) : Prop :=
  wallets_indexed serv ∧ index_exact serv.

(** A service whose wallet API is disabled holds no wallet. *)
Definition gate_inv (serv : Service) : Prop :=
  Config.EnableWalletAPI (config serv) = false → wallets serv = ∅.

(** ** Reachable states *)

(** The calls a client can make. *)
Inductive Op : Type :=
| OpWalletDir
| OpCreateWallet (fuel : nat) (wltName : string) (options : Options.t) (bg : BalanceGetter)
| OpEncryptWallet (wltID : string) (password : Password)
| OpDecryptWallet (wltID : string) (password : Password)
| OpNewAddresses (wltID : string) (password : Password) (num : N)
| OpGetSkycoinAddresses (wltID : string)
| OpGetWallet (wltID : string)
| OpGetWallets
| OpUpdateWalletLabel (wltID label : string)
| OpUnloadWallet (wltID : string)
| OpGetWalletSeed (wltID : string) (password : Password)
| OpUpdateSecrets (wltID : string) (password : Password) (f : Callback)
| OpUpdate (wltID : string) (f : Callback)
| OpViewSecrets (wltID : string) (password : Password) (f : Callback)
| OpView (wltID : string) (f : Callback)
| OpRecoverWallet (wltName seed : string) (password : Password).

(** The state a call leaves behind; [None] when [CreateWallet] does not
    return within its fuel. *)
Definition exec (env : Collaborators) (op : Op) (serv : Service) : option Service :=
  match op with
  | OpWalletDir => Some (snd (WalletDir serv))
  | OpCreateWallet fuel wltName options bg =>
      snd <$> CreateWallet env fuel wltName options bg serv
  | OpEncryptWallet wltID password => Some (snd (EncryptWallet env wltID password serv))
  | OpDecryptWallet wltID password => Some (snd (DecryptWallet env wltID password serv))
  | OpNewAddresses wltID password num =>
      Some (snd (NewAddresses env wltID password num serv))
  | OpGetSkycoinAddresses wltID => Some (snd (GetSkycoinAddressesOf env wltID serv))
  | OpGetWallet wltID => Some (snd (GetWallet wltID serv))
  | OpGetWallets => Some (snd (GetWallets serv))
  | OpUpdateWalletLabel wltID label =>
      Some (snd (UpdateWalletLabel env wltID label serv))
  | OpUnloadWallet wltID => Some (snd (UnloadWallet wltID serv))
  | OpGetWalletSeed wltID password => Some (snd (GetWalletSeed env wltID password serv))
  | OpUpdateSecrets wltID password f =>
      Some (snd (UpdateSecrets env wltID password f serv))
  | OpUpdate wltID f => Some (snd (Update env wltID f serv))
  | OpViewSecrets wltID password f => Some (snd (ViewSecrets env wltID password f serv))
  | OpView wltID f => Some (snd (View wltID f serv))
  | OpRecoverWallet wltName seed password =>
      Some (snd (RecoverWallet env wltName seed password serv))
  end.

(** The callbacks of the two calls that install what a callback returns. *)
Definition op_callbacks (P : Callback → Prop) (op : Op) : Prop :=
  match op with
  | OpUpdateSecrets _ _ f => P f
  | OpUpdate _ f => P f
  | _ => True
  end.

(** The states reachable from a successfully initialized service by calls
    whose installing callbacks satisfy [P], with collaborators that honour
    their contracts. *)
Inductive reachable (P : Callback → Prop) : Service → Prop :=
| reachable_init env c serv :
    CollaboratorsOK env →
    NewService env c = Ok serv →
    reachable P serv
| reachable_step env op serv serv' :
    reachable P serv →
    CollaboratorsOK env →
    op_callbacks P op →
    exec env op serv = Some serv' →
    reachable P serv'.

Definition any_callback : Callback → Prop := λ _, True.

(** ** A small instance of the collaborators

    Toy wallet construction and a toy cipher, used to run the service on
    concrete inputs.  The address of a seed is the coin name, a colon and
    the seed; the i-th further address is that, after i plus signs.  A locked
    wallet keeps, as its secrets, the password followed by the seed. *)

Module Demo.

Definition keyPair (seedBytes : list Byte.byte) : Res (cipher.PubKey * cipher.SecKey) :=
  match seedBytes with
  | [] => Fail (Errorf "seed is empty")
  | _ => Ok (seedBytes, seedBytes)
  end.

Definition address (c : CoinType) (pk : cipher.PubKey) : cipher.Address :=
  c ++ ":" ++ String.string_of_list_byte pk.

Definition plus (i : nat) : string := String.concat "" (replicate i "+").

Definition entryAt (c : CoinType) (seedBytes : list Byte.byte) (i : nat) : Entry :=
  {| Address := plus i ++ address c seedBytes;
     Public := seedBytes;
     Secret := seedBytes |}.

Definition entriesFrom (c : CoinType) (sd : string) (start n : nat) : list Entry :=
  map (entryAt c (String.list_byte_of_string sd)) (seq start n).

Definition eraseSecret (e : Entry) : Entry :=
  {| Address := Address e; Public := Public e; Secret := [] |}.

Definition lock (w : Wallet) (password : Password) (ct : CryptoType) : Res Wallet :=
  if IsEncrypted w then Fail ErrWalletEncrypted
  else
    match password with
    | [] => Fail ErrMissingPassword
    | _ =>
        Ok {| Filename := Filename w; Label := Label w; coin := coin w;
              walletType := walletType w; cryptoType := ct;
              IsEncrypted := true; timestamp := timestamp w;
              seed := "";
              secrets := String.string_of_list_byte password ++ seed w;
              Entries := map eraseSecret (Entries w) |}
    end.

Definition unlock (w : Wallet) (password : Password) : Res Wallet :=
  if negb (IsEncrypted w) then Fail ErrWalletNotEncrypted
  else
    match password with
    | [] => Fail ErrMissingPassword
    | _ =>
        let pw := String.string_of_list_byte password in
        if String.prefix pw (secrets w) then
          Ok {| Filename := Filename w; Label := Label w; coin := coin w;
                walletType := walletType w; cryptoType := cryptoType w;
                IsEncrypted := false; timestamp := timestamp w;
                seed := String.substring (String.length pw)
                          (String.length (secrets w) - String.length pw) (secrets w);
                secrets := "";
                Entries := Entries w |}
        else Fail ErrInvalidPassword
    end.

Definition newWallet (name : string) (o : Options.t) : Res Wallet :=
  let? (pk, _) := keyPair (String.list_byte_of_string (Options.Seed o)) in
  let n := Nat.max 1 (N.to_nat (Options.GenerateN o)) in
  let w :=
    {| Filename := name; Label := Options.Label o; coin := Options.Coin o;
       walletType := WalletTypeDeterministic;
       cryptoType := Options.CryptoType o;
       IsEncrypted := false; timestamp := 1500000000;
       seed := Options.Seed o; secrets := "";
       Entries := entriesFrom (Options.Coin o) (Options.Seed o) 0 n |} in
  if Options.Encrypt o then lock w (Options.Password o) (Options.CryptoType o)
  else Ok w.

Definition derive (w : Wallet) (num : N) : Res (list Entry) :=
  if IsEncrypted w then Fail ErrWalletEncrypted
  else Ok (entriesFrom (coin w) (seed w) (length (Entries w)) (N.to_nat num)).

Definition fileName (n : nat) : string := "wallet" ++ plus n ++ ".wlt".

Definition skyOptions (sd label : string) : Options.t :=
  {| Options.Coin := "skycoin"; Options.Label := label; Options.Seed := sd;
     Options.Encrypt := false; Options.Password := [];
     Options.CryptoType := ""; Options.GenerateN := 1 |}.

(** The wallet directory holds one wallet, [wallet.wlt], of seed [s1]. *)
Definition onDisk : Wallets :=
  match newWallet "wallet.wlt" (skyOptions "s1" "first") with
  | Ok w => {[ "wallet.wlt" := w ]}
  | _ => ∅
  end.

Definition env : Collaborators :=
  {| MkdirAll := λ _, None;
     removeBackupFiles := λ _, None;
     LoadWallets := λ _, Ok onDisk;
     NewWalletFilename := fileName;
     NewWalletScanAhead := λ name o _, newWallet name o;
     NewWallet := newWallet;
     Save := save_ok;
     Lock := lock;
     Unlock := unlock;
     deriveAddresses := derive;
     GetSkycoinAddresses := λ w, Ok (map Address (Entries w));
     GenerateDeterministicKeyPair := keyPair;
     addressConstructor := address |}.

Definition bg : BalanceGetter := {| GetBalanceOfAddrs := λ addrs, Ok [] |}.

Definition enabled : Config.t :=
  {| Config.WalletDir := "./wallets";
     Config.CryptoType := CryptoTypeScryptChacha20poly1305;
     Config.EnableWalletAPI := true;
     Config.EnableSeedAPI := true |}.

Definition pw : Password := [Byte.x70; Byte.x77].

(** The service after [NewService]: one unencrypted wallet. *)
Definition serv0 : Service :=
  match NewService env enabled with
  | Ok serv => serv
  | _ => {| wallets := ∅; config := enabled; firstAddrIDMap := ∅ |}
  end.

(** The same service after [EncryptWallet] of its wallet. *)
Definition serv1 : Service := snd (EncryptWallet env "wallet.wlt" pw serv0).

(** A callback that replaces the entries of the wallet by one entry of
    another seed. *)
Definition swapEntries : Callback :=
  λ w,
    ({| Filename := Filename w; Label := Label w; coin := coin w;
        walletType := walletType w; cryptoType := cryptoType w;
        IsEncrypted := IsEncrypted w; timestamp := timestamp w;
        seed := seed w; secrets := secrets w;
        Entries := entriesFrom (coin w) "s2" 0 1 |}, None).

(** A callback that only reads. *)
Definition readOnly : Callback := λ w, (w, None).

(** [serv0] after [Update] with [swapEntries]. *)
Definition serv_swapped : Service := snd (Update env "wallet.wlt" swapEntries serv0).

(** The service [NewService] builds from the default config, whose wallet
    API is disabled. *)
Definition serv_off : Service :=
  match NewService env NewConfig with
  | Ok serv => serv
  | _ => {| wallets := ∅; config := NewConfig; firstAddrIDMap := ∅ |}
  end.

Definition diskFull : error := Errorf "no space left on device".

End Demo.

(** ** Predicates used by the statements *)

(** With [Save] failing, [op] returns the error of [Save] and leaves the
    service as it found it, whenever [op] completes on a working disk. *)
Definition rolls_back {A : Type} (env : Collaborators) (serv : Service) (e : error)
    (op : Collaborators → M A) : Prop :=
  ∀ r serv',
    op (with_Save env save_ok) serv = (Ok r, serv') →
    op env serv = (Fail e, serv).

Definition registry_inv (serv : Service) : Prop :=
  keys_match serv ∧ index_inv serv ∧ gate_inv serv.

(** What an operation that ends in [serv.wallets.set(w)] leaves behind:
    the state it found, or that state with the wallet of [wltID] replaced
    by a wallet of the same identity. *)
Definition installs (serv : Service) (wltID : string) (serv' : Service) : Prop :=
  serv' = serv ∨
  ∃ w w', wallets serv !! wltID = Some w ∧ same_identity w w' ∧
          serv' = with_wallets serv (Wallets.set (wallets serv) w').

(** What [loadWallet] leaves behind: the state it found, or that state
    with one new wallet and its index entry. *)
Definition adds (serv serv' : Service) : Prop :=
  serv' = serv ∨
  ∃ w addr,
    first_address w = Some addr ∧
    firstAddrIDMap serv !! addr = None ∧
    wallets serv !! Filename w = None ∧
    serv' = with_firstAddrIDMap
              (with_wallets serv (<[Filename w := w]> (wallets serv)))
              (<[addr := Filename w]> (firstAddrIDMap serv)).

(** The index [setWallets_range] builds, as a fold. *)
Definition index_of (l : list (string * Wallet)) (idx : gmap string string)
  : gmap string string :=
  foldl (λ idx p, match first_address p.2 with
                  | Some addr => <[addr := p.1]> idx
                  | None => idx
                  end) idx l.

(** The first addresses of the wallets of a list. *)
Definition first_addresses (l : list (string * Wallet)) : list string :=
  omap (λ p, first_address p.2) l.

(** [GetWallet] on [serv] returns a wallet of [wltID] that reports
    encrypted. *)
Definition still_encrypted (wltID : string) (serv : Service) : Prop :=
  ∃ w, GetWallet wltID serv = (Ok w, serv) ∧ IsEncrypted w = true.

(** [Demo.serv1] after [DecryptWallet] of its wallet: the wallet is
    unencrypted again and keeps the crypto type it was locked with. *)
Definition Demo_serv2 : Service :=
  snd (DecryptWallet Demo.env "wallet.wlt" Demo.pw Demo.serv1).

(** A wallet without entries, as a damaged wallet file would give. *)
Definition Demo_emptyWallet (name : string) : Wallet :=
  {| Filename := name; Label := "damaged"; coin := "skycoin";
     walletType := WalletTypeDeterministic; cryptoType := "";
     IsEncrypted := false; timestamp := 0; seed := ""; secrets := "";
     Entries := [] |}.

(** Collaborators that misbehave: the wallet directory cannot be created,
    and wallet construction returns a wallet without entries. *)
Definition Demo_env_bad : Collaborators :=
  {| MkdirAll := λ _, Some Demo.diskFull;
     removeBackupFiles := removeBackupFiles Demo.env;
     LoadWallets := LoadWallets Demo.env;
     NewWalletFilename := NewWalletFilename Demo.env;
     NewWalletScanAhead := λ name _ _, Ok (Demo_emptyWallet name);
     NewWallet := NewWallet Demo.env;
     Save := Save Demo.env;
     Lock := Lock Demo.env;
     Unlock := Unlock Demo.env;
     deriveAddresses := deriveAddresses Demo.env;
     GetSkycoinAddresses := GetSkycoinAddresses Demo.env;
     GenerateDeterministicKeyPair := GenerateDeterministicKeyPair Demo.env;
     addressConstructor := addressConstructor Demo.env |}.

(** [Demo.serv1] under a config that enables the wallet API and not the
    seed API. *)
Definition Demo_serv_noseed : Service :=
  {| wallets := wallets Demo.serv1;
     config := {| Config.WalletDir := "./wallets";
                  Config.CryptoType := CryptoTypeScryptChacha20poly1305;
                  Config.EnableWalletAPI := true;
                  Config.EnableSeedAPI := false |};
     firstAddrIDMap := firstAddrIDMap Demo.serv1 |}.

(** The options with another crypto type. *)
Definition Options_with_CryptoType (o : Options.t) (ct : CryptoType) : Options.t :=
  {| Options.Coin := Options.Coin o;
     Options.Label := Options.Label o;
     Options.Seed := Options.Seed o;
     Options.Encrypt := Options.Encrypt o;
     Options.Password := Options.Password o;
     Options.CryptoType := ct;
     Options.GenerateN := Options.GenerateN o |}.

(** Wallet construction that records a crypto type only when it encrypts:
    the wallet it builds without encryption has the empty crypto type,
    whatever the options name. *)
Definition Demo_newWallet_plain (name : string) (o : Options.t) : Res Wallet :=
  if Options.Encrypt o then Demo.newWallet name o
  else Demo.newWallet name (Options_with_CryptoType o "").

(** [Demo.env] with that wallet construction. *)
Definition Demo_env_plain : Collaborators :=
  {| MkdirAll := MkdirAll Demo.env;
     removeBackupFiles := removeBackupFiles Demo.env;
     LoadWallets := LoadWallets Demo.env;
     NewWalletFilename := NewWalletFilename Demo.env;
     NewWalletScanAhead := λ name o _, Demo_newWallet_plain name o;
     NewWallet := Demo_newWallet_plain;
     Save := Save Demo.env;
     Lock := Lock Demo.env;
     Unlock := Unlock Demo.env;
     deriveAddresses := deriveAddresses Demo.env;
     GetSkycoinAddresses := GetSkycoinAddresses Demo.env;
     GenerateDeterministicKeyPair := GenerateDeterministicKeyPair Demo.env;
     addressConstructor := addressConstructor Demo.env |}.

(** * Proofs *)

(** ** Running an operation symbolically *)

Ltac unfold_monad :=
  cbv [bind ret throw lift gets modify checkWalletAPI getWallet
    saveWallet setWallet Wallets.get res_of_err res_bind run_callback
    GuardUpdate GuardView GenerateSkycoinAddresses firstEntryAddress
    EncryptWallet DecryptWallet NewAddresses UpdateWalletLabel UpdateSecrets
    Update RecoverWallet ViewSecrets View GetWalletSeed GetWallet GetWallets
    UnloadWallet WalletDir GetSkycoinAddressesOf] in *.

(** Case analysis on an innermost [match] of a hypothesis, then of the goal. *)
Ltac destruct_in_hyp :=
  match goal with
  | H : context [match ?x with _ => _ end] |- _ =>
      let E := fresh "E" in destruct x eqn:E; simpl in H; simplify_eq
  end.

Ltac destruct_scrutinee :=
  match goal with
  | |- context [match ?x with _ => _ end] =>
      lazymatch x with
      | context [match _ with _ => _ end] => fail
      | _ => let E := fresh "E" in destruct x eqn:E; simplify_eq
      end
  end.

Ltac split_run := repeat (simpl; destruct_scrutinee); simpl.

Lemma firstAddr_Ok w addr : firstAddr w = Ok addr ↔ first_address w = Some addr.
Proof.
  unfold firstAddr, first_address.
  destruct (Entries w); split; intros; simplify_eq; done.
Qed.

Lemma length_not_zero {A : Type} (l : list A) :
  negb (length l =? 0)%nat = true ↔ l ≠ [].
Proof. destruct l; simpl; split; intros; done. Qed.

(** ** Wallets of the same identity *)

Lemma same_identity_trans w1 w2 w3 :
  same_identity w1 w2 → same_identity w2 w3 → same_identity w1 w3.
Proof. intros [? ?] [? ?]. split; congruence. Qed.

Lemma same_identity_setLabel w label : same_identity w (setLabel w label).
Proof. by split. Qed.

Lemma same_identity_setTimestamp w t : same_identity w (setTimestamp w t).
Proof. by split. Qed.

Lemma same_identity_appendEntries w more :
  is_Some (first_address w) → same_identity w (appendEntries w more).
Proof.
  intros [a Ha]. split; [done |].
  unfold first_address in *. simpl. by destruct (Entries w).
Qed.

(** ** The gate *)

Lemma wallet_present_enabled serv id w :
  gate_inv serv → wallets serv !! id = Some w →
  Config.EnableWalletAPI (config serv) = true.
Proof.
  intros Hg Hw. destruct (Config.EnableWalletAPI (config serv)) eqn:E; [done |].
  rewrite (Hg E) in Hw. by rewrite lookup_empty in Hw.
Qed.

(** ** The invariant is kept by every operation *)

Lemma registry_inv_set serv id w w' :
  registry_inv serv →
  wallets serv !! id = Some w →
  same_identity w w' →
  registry_inv (with_wallets serv (Wallets.set (wallets serv) w')).
Proof.
  intros (Hk & [Hwi Hix] & Hg) Hw [Hf Ha].
  pose proof (Hk _ _ Hw) as Hid. simpl in Hid.
  assert (Filename w' = id) as Hid' by congruence.
  unfold Wallets.set. rewrite Hid'.
  split; [| split; [split |]].
  - intros id0 w0. simpl. rewrite lookup_insert.
    case_decide; intros; simplify_eq; [done | by apply Hk].
  - intros id0 w0. simpl. rewrite lookup_insert.
    case_decide; intros; simplify_eq.
    + rewrite Ha. by apply (Hwi _ _ Hw).
    + by apply Hwi.
  - intros addr id0 Hi. simpl in *. specialize (Hix _ _ Hi). simpl in Hix.
    rewrite lookup_insert. case_decide; simplify_eq; [| done].
    rewrite Hw in Hix. simpl in *. congruence.
  - intros Hd. simpl in Hd.
    by rewrite (wallet_present_enabled _ _ _ Hg Hw) in Hd.
Qed.

Lemma installs_registry_inv serv wltID serv' :
  registry_inv serv → installs serv wltID serv' → registry_inv serv'.
Proof.
  intros Hinv [-> | (w & w' & Hw & Hid & ->)]; [done |].
  by eapply registry_inv_set.
Qed.

Ltac install_with tac :=
  right; do 2 eexists; split; [done |]; split; [tac | done].

Lemma EncryptWallet_installs env wltID password serv :
  Lock_keeps_identity env →
  installs serv wltID (snd (EncryptWallet env wltID password serv)).
Proof.
  intros HL. unfold_monad. split_run; try (by left).
  install_with ltac:(by eapply HL).
Qed.

Lemma DecryptWallet_installs env wltID password serv :
  Unlock_keeps_identity env →
  installs serv wltID (snd (DecryptWallet env wltID password serv)).
Proof.
  intros HU. unfold_monad. split_run; try (by left).
  install_with ltac:(by eapply HU).
Qed.

Lemma UpdateWalletLabel_installs env wltID label serv :
  installs serv wltID (snd (UpdateWalletLabel env wltID label serv)).
Proof.
  unfold_monad. split_run; try (by left).
  install_with ltac:(apply same_identity_setLabel).
Qed.

(** The callback's verdict on the wallet it was run on. *)
Ltac use_callback Hf :=
  match goal with
  | H : ?f ?w = (_, None) |- _ =>
      let Hf' := fresh "Hf" in
      pose proof (Hf w) as Hf'; rewrite H in Hf'; simpl in Hf';
      specialize (Hf' eq_refl)
  end.

Lemma Update_installs env wltID f serv :
  keeps_identity f →
  installs serv wltID (snd (Update env wltID f serv)).
Proof.
  intros Hf. unfold_monad. split_run; try (by left).
  use_callback Hf. install_with ltac:(done).
Qed.

Lemma UpdateSecrets_installs env wltID password f serv :
  Lock_keeps_identity env → Unlock_keeps_identity env →
  keeps_identity f →
  installs serv wltID (snd (UpdateSecrets env wltID password f serv)).
Proof.
  intros HL HU Hf. unfold_monad. split_run; try (by left); use_callback Hf.
  - install_with ltac:(idtac).
    eapply same_identity_trans; [by eapply HU |].
    eapply same_identity_trans; [done | by eapply HL].
  - install_with ltac:(done).
Qed.

Lemma NewAddresses_installs env wltID password num serv :
  Lock_keeps_identity env → Unlock_keeps_identity env →
  wallets_indexed serv →
  installs serv wltID (snd (NewAddresses env wltID password num serv)).
Proof.
  intros HL HU Hwi. unfold_monad. split_run; try (by left).
  all: match goal with H : wallets _ !! _ = Some _ |- _ =>
         pose proof (Hwi _ _ H) as Hsome end.
  all: simpl in Hsome; apply bind_Some in Hsome as (addr & Haddr & _).
  - install_with ltac:(idtac).
    eapply same_identity_trans; [by eapply HU |].
    eapply same_identity_trans; [| by eapply HL].
    apply same_identity_appendEntries.
    match goal with H : Unlock _ _ _ = Ok _ |- _ =>
      destruct (HU _ _ _ H) as [_ ->] end.
    by eexists.
  - install_with ltac:(idtac).
    apply same_identity_appendEntries. by eexists.
Qed.

Lemma RecoverWallet_installs env wltID sd password serv :
  NewWallet_from_seed env →
  keys_match serv →
  installs serv wltID (snd (RecoverWallet env wltID sd password serv)).
Proof.
  intros HN Hk. unfold_monad. split_run; try (by left).
  install_with ltac:(idtac).
  eapply same_identity_trans; [| apply same_identity_setTimestamp].
  match goal with H : NewWallet _ _ _ = Ok _ |- _ =>
    destruct (HN _ _ _ H) as (Hname & pk & sk & Hkp & Hfirst) end.
  simpl in *.
  match goal with H1 : ?x = Ok (_, _), H2 : ?x = Ok (pk, sk) |- _ =>
    rewrite H1 in H2; simplify_eq end.
  match goal with
  | H : negb (bool_decide (addressConstructor _ _ _ = _)) = false |- _ =>
      apply negb_false_iff, bool_decide_eq_true in H; rename H into Haddr
  end.
  match goal with H : wallets _ !! _ = Some _ |- _ =>
    pose proof (Hk _ _ H) as Hid end.
  simpl in Hid. split; [congruence |].
  rewrite Hfirst. unfold first_address.
  match goal with H : Entries _ = _ :: _ |- _ => rewrite H end.
  by rewrite Haddr.
Qed.

Lemma loadWallet_adds env wltName options bg serv :
  adds serv (snd (loadWallet env wltName options bg serv)).
Proof.
  unfold loadWallet, Wallets.add, Wallets.remove. unfold_monad.
  split_run; try (by left).
  - left. destruct serv as [wl cf ix]. unfold with_wallets. simpl in *.
    f_equal. rewrite delete_insert_eq. by apply delete_id.
  - right. do 2 eexists. rewrite <- firstAddr_Ok.
    split; [done |]. split; [done |]. split; [done |]. reflexivity.
Qed.

Lemma registry_inv_add serv serv' :
  Config.EnableWalletAPI (config serv) = true →
  registry_inv serv → adds serv serv' → registry_inv serv'.
Proof.
  intros Hen Hinv [-> | (w & addr & Ha & Hfree & Hnew & ->)]; [done |].
  destruct Hinv as (Hk & [Hwi Hix] & Hg).
  split; [| split; [split |]].
  - intros id0 w0. simpl. rewrite lookup_insert.
    case_decide; intros; simplify_eq; [done | by apply Hk].
  - intros id0 w0. simpl. rewrite lookup_insert.
    case_decide; intros Hw0; simplify_eq.
    + rewrite Ha. simpl. by rewrite lookup_insert_eq.
    + specialize (Hwi _ _ Hw0). simpl in Hwi.
      apply bind_Some in Hwi as (a0 & Ha0 & Hi0). rewrite Ha0. simpl.
      rewrite lookup_insert_ne; [done |]. intros <-. congruence.
  - intros a0 id0. simpl. rewrite lookup_insert.
    case_decide; intros Hi0; simplify_eq.
    + by rewrite lookup_insert_eq.
    + specialize (Hix _ _ Hi0). simpl in Hix.
      rewrite lookup_insert_ne; [done |]. intros <-.
      by rewrite Hnew in Hix.
  - intros Hd. simpl in Hd. congruence.
Qed.

Lemma CreateWallet_registry_inv env fuel wltName options bg serv r serv' :
  registry_inv serv →
  CreateWallet env fuel wltName options bg serv = Some (r, serv') →
  registry_inv serv'.
Proof.
  intros Hinv. unfold CreateWallet.
  destruct (Config.EnableWalletAPI (config serv)) eqn:Hen; simpl.
  - destruct (resolveName env fuel wltName serv) as [name |]; [| done].
    intros [= Hrun]. eapply registry_inv_add; [done | done |].
    pose proof (loadWallet_adds env name options bg serv) as Hadds.
    rewrite Hrun in Hadds. exact Hadds.
  - intros [= _ <-]. done.
Qed.

Lemma UnloadWallet_registry_inv wltID serv :
  registry_inv serv → registry_inv (snd (UnloadWallet wltID serv)).
Proof.
  intros Hinv. pose proof Hinv as (Hk & [Hwi Hix] & Hg).
  unfold_monad. split_run; try done; unfold Wallets.remove.
  - match goal with H : wallets _ !! _ = Some ?w |- _ =>
      pose proof (Hwi _ _ H) as Hw end.
    unfold first_address in Hw.
    match goal with H : Entries _ = [] |- _ => rewrite H in Hw end. done.
  - match goal with H : wallets _ !! _ = Some ?w |- _ =>
      pose proof (Hwi _ _ H) as Hw; rename H into Hlook end.
    unfold first_address in Hw.
    match goal with H : Entries _ = _ :: _ |- _ =>
      rewrite H in Hw; rename H into Hent end.
    simpl in Hw.
    split; [| split; [split |]].
    + intros id0 w0. simpl. rewrite lookup_delete.
      case_decide; intros; simplify_eq. by apply Hk.
    + intros id0 w0. simpl. rewrite lookup_delete.
      case_decide; intros Hw0; simplify_eq.
      specialize (Hwi _ _ Hw0). simpl in Hwi.
      apply bind_Some in Hwi as (a0 & Ha0 & Hi0). rewrite Ha0. simpl.
      rewrite lookup_delete_ne; [done |]. intros <-. congruence.
    + intros a0 id0. simpl. rewrite lookup_delete.
      case_decide; intros Hi0; simplify_eq.
      specialize (Hix _ _ Hi0). simpl in Hix.
      rewrite lookup_delete_ne; [done |]. intros <-.
      rewrite Hlook in Hix. simpl in Hix. unfold first_address in Hix.
      rewrite Hent in Hix. by simplify_eq.
    + intros Hd. simpl in Hd. congruence.
  - destruct serv as [wl cf ix]. unfold with_wallets. simpl in *.
    rewrite delete_id; done.
Qed.

(** ** Initialization establishes the invariant *)

Lemma containsEmpty_from_None l :
  Wallets.containsEmpty_from l = None →
  ∀ id w, (id, w) ∈ l → is_Some (first_address w).
Proof.
  induction l as [| [id0 w0] l IHl]; intros Hn id w Hin.
  - by destruct (not_elem_of_nil _ Hin).
  - simpl in Hn. apply elem_of_cons in Hin as [Heq | Hin].
    + injection Heq as -> ->. unfold first_address.
      destruct (Entries w0); [done | by eexists].
    + destruct (Entries w0); [done |]. by eapply IHl.
Qed.

Lemma setWallets_range_run l serv :
  Wallets.containsEmpty_from l = None →
  setWallets_range l serv
  = (Ok tt, with_firstAddrIDMap serv (index_of l (firstAddrIDMap serv))).
Proof.
  revert serv. induction l as [| [id0 w0] l IHl]; intros serv Hn.
  - by destruct serv.
  - simpl in *. unfold_monad. unfold firstAddr, index_of, first_address. simpl.
    destruct (Entries w0) as [| e es]; [done |].
    rewrite IHl; [| done]. done.
Qed.

Lemma containsDuplicate_from_None seen l :
  Wallets.containsDuplicate_from seen l = None →
  NoDup (first_addresses l) ∧ ∀ addr, addr ∈ first_addresses l → addr ∉ seen.
Proof.
  revert seen. induction l as [| [id0 w0] l IHl]; intros seen Hn; simpl in *.
  - split; [apply NoDup_nil_2 | intros ? Hin; by destruct (not_elem_of_nil _ Hin)].
  - unfold first_addresses, first_address in *. simpl.
    destruct (Entries w0) as [| e es]; simpl.
    + by apply IHl.
    + case_decide as Hseen; [done |].
      destruct (IHl _ Hn) as [Hnd Hfresh]. split.
      * apply NoDup_cons_2; [| done]. intros Hin. apply Hfresh in Hin.
        apply Hin, elem_of_union_l. by apply elem_of_singleton.
      * intros addr [-> | Hin]%elem_of_cons; [done |].
        apply Hfresh in Hin. intros Hs. by apply Hin, elem_of_union_r.
Qed.

Lemma index_of_lookup l idx addr id :
  NoDup (first_addresses l) →
  ((index_of l idx) !! addr = Some id) ↔
    ((∃ w, (id, w) ∈ l ∧ first_address w = Some addr) ∨
     ((addr ∉ first_addresses l) ∧ idx !! addr = Some id)).
Proof.
  revert idx. induction l as [| [id0 w0] l IHl]; intros idx Hnd.
  - simpl. split.
    + intros H. right. split; [apply not_elem_of_nil | done].
    + intros [(w & Hin & _) | [_ H]]; [by destruct (not_elem_of_nil _ Hin) | done].
  - unfold index_of in *. simpl.
    unfold first_addresses in Hnd. simpl in Hnd.
    fold (first_addresses l) in Hnd.
    unfold first_addresses at 1. simpl. fold (first_addresses l).
    destruct (first_address w0) as [a0 |] eqn:Ha0; simpl in *.
    + pose proof (NoDup_cons_1_1 _ _ Hnd) as Hnotin.
      apply NoDup_cons_1_2 in Hnd.
      rewrite (IHl _ Hnd). rewrite lookup_insert. split.
      * intros [(w & Hin & Ha) | [Hni Hl]].
        -- left. exists w. split; [by apply elem_of_cons; right | done].
        -- case_decide; simplify_eq.
           ++ left. exists w0. split; [apply elem_of_cons; by left | done].
           ++ right. split; [| done]. by apply not_elem_of_cons.
      * intros [(w & [Heq | Hin]%elem_of_cons & Ha) | [Hni Hl]].
        -- simplify_eq. right. split; [done |]. by rewrite decide_True.
        -- left. eauto.
        -- apply not_elem_of_cons in Hni as [Hne Hni].
           right. split; [done |]. by rewrite decide_False.
    + rewrite (IHl _ Hnd). split.
      * intros [(w & Hin & Ha) | [Hni Hl]].
        -- left. exists w. split; [by apply elem_of_cons; right | done].
        -- by right.
      * intros [(w & [Heq | Hin]%elem_of_cons & Ha) | [Hni Hl]].
        -- simplify_eq.
        -- left. eauto.
        -- by right.
Qed.

Lemma registry_inv_empty c :
  registry_inv {| wallets := ∅; config := c; firstAddrIDMap := ∅ |}.
Proof.
  split; [| split; [split |]];
    try (intros ? ? H; simpl in H; by rewrite lookup_empty in H).
  done.
Qed.

Lemma NewService_registry_inv env c serv :
  LoadWallets_keyed env →
  NewService env c = Ok serv →
  registry_inv serv.
Proof.
  intros HLW. unfold NewService. simpl.
  destruct (Config.EnableWalletAPI c) eqn:Hen; simpl.
  2: { intros [= <-]. apply registry_inv_empty. }
  destruct (MkdirAll env _); [done |].
  destruct (removeBackupFiles env _); [done |].
  destruct (LoadWallets env _) as [wlts | |] eqn:Hload; [| done | done].
  destruct (Wallets.containsDuplicate wlts) as [[? ?] |] eqn:Hdup; [done |].
  destruct (Wallets.containsEmpty wlts) eqn:Hemp; [done |].
  unfold setWallets. unfold_monad. simpl.
  rewrite setWallets_range_run by done. simpl. intros [= <-].
  apply containsDuplicate_from_None in Hdup as [Hnd _].
  pose proof (containsEmpty_from_None _ Hemp) as Hne.
  split; [| split; [split |]].
  - intros id w Hw. simpl in *. by eapply HLW.
  - intros id w Hw. simpl in *.
    assert ((id, w) ∈ map_to_list wlts) as Hin by by apply elem_of_map_to_list.
    destruct (Hne _ _ Hin) as [addr Ha]. rewrite Ha. simpl.
    apply index_of_lookup; [done |]. left. eauto.
  - intros addr id Hi. simpl in *.
    apply index_of_lookup in Hi as [(w & Hin & Ha) | [_ Hl]]; [| | done].
    + apply elem_of_map_to_list in Hin. by rewrite Hin.
    + by rewrite lookup_empty in Hl.
  - intros Hd. simpl in Hd. congruence.
Qed.

(** ** Reachable states *)

Lemma exec_registry_inv env op serv serv' :
  CollaboratorsOK env →
  op_callbacks keeps_identity op →
  registry_inv serv →
  exec env op serv = Some serv' →
  registry_inv serv'.
Proof.
  intros [HLW HL HU HN] Hcb Hinv Hex.
  pose proof Hinv as (Hk & [Hwi Hix] & Hg).
  destruct op; simpl in *; simplify_eq.
  - unfold_monad. by split_run.
  - destruct (CreateWallet env fuel wltName options bg serv) as [[r s] |] eqn:Hc;
      simplify_eq/=. by eapply CreateWallet_registry_inv.
  - eapply installs_registry_inv; [done | by apply EncryptWallet_installs].
  - eapply installs_registry_inv; [done | by apply DecryptWallet_installs].
  - eapply installs_registry_inv; [done | by apply NewAddresses_installs].
  - unfold_monad. by split_run.
  - unfold_monad. by split_run.
  - unfold_monad. by split_run.
  - eapply installs_registry_inv; [done | by apply UpdateWalletLabel_installs].
  - by apply UnloadWallet_registry_inv.
  - unfold_monad. by split_run.
  - eapply installs_registry_inv; [done | by apply UpdateSecrets_installs].
  - eapply installs_registry_inv; [done | by apply Update_installs].
  - unfold_monad. by split_run.
  - unfold_monad. by split_run.
  - eapply installs_registry_inv; [done | by apply RecoverWallet_installs].
Qed.

Lemma reachable_registry_inv serv :
  reachable keeps_identity serv → registry_inv serv.
Proof.
  induction 1 as [env c serv Henv Hnew | env op serv serv' _ IH Henv Hcb Hex].
  - eapply NewService_registry_inv; [apply Henv | done].
  - by eapply exec_registry_inv.
Qed.

(** No operation changes the config, and a disabled service changes
    nothing at all, whatever the callbacks do. *)
Lemma exec_config env op serv serv' :
  exec env op serv = Some serv' → config serv' = config serv.
Proof.
  destruct op; simpl; intros Hex; simplify_eq;
    try (unfold_monad; by split_run).
  unfold CreateWallet in Hex.
  destruct (Config.EnableWalletAPI (config serv)); simpl in Hex; [| by simplify_eq].
  destruct (resolveName env fuel wltName serv); simpl in Hex; simplify_eq.
  unfold loadWallet, Wallets.add. unfold_monad. by split_run.
Qed.

Lemma exec_disabled env op serv serv' :
  Config.EnableWalletAPI (config serv) = false →
  exec env op serv = Some serv' → serv' = serv.
Proof.
  intros Hoff. destruct op; simpl; intros Hex; simplify_eq;
    try (unfold_monad; rewrite Hoff; done).
  unfold CreateWallet in Hex. rewrite Hoff in Hex. simpl in Hex. by injection Hex.
Qed.

Lemma setWallets_range_config l serv r serv' :
  setWallets_range l serv = (r, serv') → config serv' = config serv.
Proof.
  revert serv. induction l as [| [id0 w0] l IHl]; intros serv; simpl.
  - unfold_monad. by intros [= _ <-].
  - unfold_monad. destruct (firstAddr w0); simpl; try by intros [= _ <-].
    intros Hl. by rewrite (IHl _ Hl).
Qed.

Lemma NewService_config env c serv : NewService env c = Ok serv → config serv = c.
Proof.
  unfold NewService, setWallets. unfold_monad. simpl.
  intros Hnew. repeat destruct_in_hyp; try done.
  match goal with H : setWallets_range _ _ = _ |- _ =>
    by apply setWallets_range_config in H end.
Qed.

Lemma reachable_gate_inv P serv : reachable P serv → gate_inv serv.
Proof.
  induction 1 as [env c serv Henv Hnew | env op serv serv' _ IH Henv Hcb Hex].
  - intros Hoff. rewrite (NewService_config _ _ _ Hnew) in Hoff.
    unfold NewService in Hnew. simpl in Hnew. rewrite Hoff in Hnew.
    simpl in Hnew. by simplify_eq.
  - intros Hoff. rewrite (exec_config _ _ _ _ Hex) in Hoff.
    rewrite (exec_disabled _ _ _ _ Hoff Hex). by apply IH.
Qed.

(** ** The demo collaborators honour the contracts *)

Lemma first_address_map_eraseSecret es :
  match map Demo.eraseSecret es with
  | [] => None
  | e :: _ => Some (cipher.String (Address e))
  end
  = match es with
    | [] => None
    | e :: _ => Some (cipher.String (Address e))
    end.
Proof. by destruct es. Qed.

Lemma Demo_lock_identity : Lock_keeps_identity Demo.env.
Proof.
  intros w password ct w'. simpl. unfold Demo.lock.
  destruct (IsEncrypted w); [done |]. destruct password; [done |].
  intros [= <-]. split; [done |].
  unfold first_address. simpl. apply first_address_map_eraseSecret.
Qed.

Lemma Demo_lock_encrypts : Lock_encrypts Demo.env.
Proof.
  intros w password ct w'. simpl. unfold Demo.lock.
  destruct (IsEncrypted w); [done |]. destruct password; [done |].
  by intros [= <-].
Qed.

Lemma Demo_unlock_identity : Unlock_keeps_identity Demo.env.
Proof.
  intros w password w'. simpl. unfold Demo.unlock.
  destruct (IsEncrypted w); [| done]. destruct password; [done |]. simpl.
  destruct (String.prefix _ _); [| done]. by intros [= <-].
Qed.

Lemma Demo_newWallet_from_seed : NewWallet_from_seed Demo.env.
Proof.
  intros name o w. simpl. unfold Demo.newWallet, Demo.keyPair.
  destruct (String.list_byte_of_string (Options.Seed o)) as [| b bs] eqn:Hseed;
    [done |].
  simpl. assert (∃ n, Nat.max 1 (N.to_nat (Options.GenerateN o)) = S n) as [n ->].
  { destruct (N.to_nat (Options.GenerateN o)); simpl; eauto. }
  unfold Demo.entriesFrom. rewrite Hseed. simpl.
  destruct (Options.Encrypt o).
  - unfold Demo.lock. simpl. destruct (Options.Password o); [done |].
    intros [= <-]. split; [done |]. by exists (b :: bs), (b :: bs).
  - intros [= <-]. split; [done |]. by exists (b :: bs), (b :: bs).
Qed.

Lemma Demo_newWallet_carries_options : NewWallet_carries_options Demo.env.
Proof.
  intros name o w. simpl. unfold Demo.newWallet, Demo.keyPair.
  destruct (String.list_byte_of_string (Options.Seed o)) as [| b bs] eqn:Hseed;
    [done |].
  simpl.
  assert (∀ es : list Entry,
    length es = Nat.max 1 (N.to_nat (Options.GenerateN o)) →
    (0 < Options.GenerateN o)%N →
    N.of_nat (length es) = Options.GenerateN o) as Hlen.
  { intros es -> Hpos. lia. }
  destruct (Options.Encrypt o).
  - unfold Demo.lock. simpl. destruct (Options.Password o); [done |].
    intros [= <-]. simpl. repeat split; try done.
    apply Hlen. unfold Demo.entriesFrom.
    by rewrite !length_map, length_seq.
  - intros [= <-]. simpl. repeat split; try done.
    apply Hlen. unfold Demo.entriesFrom. by rewrite length_map, length_seq.
Qed.

Lemma Demo_env_plain_carries_options : NewWallet_carries_options Demo_env_plain.
Proof.
  intros name o w. simpl. unfold Demo_newWallet_plain.
  destruct (Options.Encrypt o) eqn:Henc; intros Hnew;
    destruct (Demo_newWallet_carries_options _ _ _ Hnew)
      as (Hname & Hlabel & Hcoin & Hct & Hen & Hlen); simpl in *.
  - rewrite Henc in *. by repeat split.
  - rewrite Henc in *. by repeat split.
Qed.

Lemma Demo_LoadWallets_keyed : LoadWallets_keyed Demo.env.
Proof.
  intros dir wlts id w. simpl. intros [= <-].
  unfold Demo.onDisk.
  destruct (Demo.newWallet "wallet.wlt" _) as [w0 | |] eqn:Hnew;
    try (intros H; by rewrite lookup_empty in H).
  intros [<- <-]%lookup_singleton_Some.
  by destruct (Demo_newWallet_from_seed _ _ _ Hnew) as [-> _].
Qed.

Lemma Demo_env_ok : CollaboratorsOK Demo.env.
Proof.
  split.
  - apply Demo_LoadWallets_keyed.
  - apply Demo_lock_identity.
  - apply Demo_unlock_identity.
  - apply Demo_newWallet_from_seed.
Qed.

Lemma Demo_serv0_init : NewService Demo.env Demo.enabled = Ok Demo.serv0.
Proof. vm_compute. reflexivity. Qed.

Lemma Demo_serv0_reachable P : reachable P Demo.serv0.
Proof.
  eapply reachable_init; [apply Demo_env_ok | apply Demo_serv0_init].
Qed.

Lemma Demo_serv1_reachable P : reachable P Demo.serv1.
Proof.
  eapply (reachable_step P Demo.env (OpEncryptWallet "wallet.wlt" Demo.pw));
    [apply Demo_serv0_reachable | apply Demo_env_ok | exact I | reflexivity].
Qed.

(** * Properties stated by the specification *)

(** ** C1: a failed Save rolls the mutation back *)

(** C1.  For every wallet id and each of EncryptWallet, DecryptWallet,
    NewAddresses, UpdateWalletLabel, UpdateSecrets, Update and
    RecoverWallet: when Save returns the error [e], the operation (which
    would complete on a working disk) returns [e], and the service, that
    is the wallets map and the first-address index, is exactly what it was
    before the call. *)
Theorem save_error_rolls_back env serv e :
  (∀ w dir, Save env w dir = Some e) →
  ∀ (wltID : string) (password : Password) (num : N) (label : string)
    (f : Callback) (sd : string),
    rolls_back env serv e (λ env, EncryptWallet env wltID password) ∧
    rolls_back env serv e (λ env, DecryptWallet env wltID password) ∧
    rolls_back env serv e (λ env, NewAddresses env wltID password num) ∧
    rolls_back env serv e (λ env, UpdateWalletLabel env wltID label) ∧
    rolls_back env serv e (λ env, UpdateSecrets env wltID password f) ∧
    rolls_back env serv e (λ env, Update env wltID f) ∧
    rolls_back env serv e (λ env, RecoverWallet env wltID sd password).
Proof.
  intros Hfail wltID password num label f sd.
  repeat split; intros r serv' Hok; unfold_monad; simpl in *;
    repeat destruct_in_hyp;
    repeat (rewrite Hfail || reflexivity || (progress simpl)).
Qed.

Lemma save_error_rolls_back_witness :
  let env := with_Save Demo.env (save_fails Demo.diskFull) in
  (∀ w dir, Save env w dir = Some Demo.diskFull) ∧
  UpdateWalletLabel env "wallet.wlt" "renamed" Demo.serv0
  = (Fail Demo.diskFull, Demo.serv0) ∧
  EncryptWallet env "wallet.wlt" Demo.pw Demo.serv0
  = (Fail Demo.diskFull, Demo.serv0).
Proof.
  intros env.
  destruct (save_error_rolls_back env Demo.serv0 Demo.diskFull
              (λ _ _, eq_refl) "wallet.wlt" Demo.pw 1%N "renamed"
              Demo.readOnly "s1") as (Henc & _ & _ & Hlabel & _).
  split; [by intros |]. split.
  - eapply Hlabel. vm_compute. reflexivity.
  - eapply Henc. vm_compute. reflexivity.
Defined.

(** ** C2: the first-address index *)

(** C2, as stated, fails: a callback handed to Update may replace the
    entries of the wallet; the wallet is installed and the index still
    holds the old first address. *)
Lemma index_inv_broken_by_callback :
  ¬ (∀ serv, reachable any_callback serv → index_inv serv).
Proof.
  intros Hall.
  assert (reachable any_callback Demo.serv_swapped) as Hreach.
  { eapply (reachable_step _ Demo.env (OpUpdate "wallet.wlt" Demo.swapEntries));
      [apply Demo_serv0_reachable | apply Demo_env_ok | exact I | reflexivity]. }
  destruct (Hall _ Hreach) as [Hwi _].
  assert (∃ w, wallets Demo.serv_swapped !! "wallet.wlt" = Some w ∧
               (first_address w ≫= λ addr, firstAddrIDMap Demo.serv_swapped !! addr)
               = None) as (w & Hw & Hnone).
  { eexists. split; vm_compute; reflexivity. }
  specialize (Hwi _ _ Hw). cbv beta in Hwi. rewrite Hnone in Hwi. discriminate Hwi.
Qed.

(** C2, amended.  In every state reachable from a successfully
    initialized service by any sequence of operations whose callbacks (of
    Update and UpdateSecrets) leave the id and the first address of the
    wallet unchanged: every wallet of the wallets map is filed under its
    id and the index maps its first address to that id, and every entry of
    the index is the first address of the wallet it names. *)
Theorem reachable_index_inv serv :
  reachable keeps_identity serv → index_inv serv ∧ keys_match serv.
Proof.
  intros Hreach. apply reachable_registry_inv in Hreach as (Hk & Hix & _).
  by split.
Qed.

Lemma reachable_index_inv_witness :
  let serv := snd (Update Demo.env "wallet.wlt" Demo.readOnly Demo.serv1) in
  index_inv serv ∧ keys_match serv.
Proof.
  intros serv. apply reachable_index_inv.
  eapply (reachable_step _ Demo.env (OpUpdate "wallet.wlt" Demo.readOnly));
    [apply Demo_serv1_reachable | apply Demo_env_ok | | reflexivity].
  simpl. intros w _. split; reflexivity.
Defined.

(** ** C3: a seed already in use *)

(** C3, as stated, fails: after Update with a callback that replaced the
    entries of the wallet, the registry holds a wallet whose first address
    is not in the index, and CreateWallet with the seed of that address
    succeeds. *)
Lemma CreateWallet_seed_reused_after_callback :
  ¬ (∀ env fuel wltName options bg serv id0 w0 addr name w,
       reachable any_callback serv →
       wallets serv !! id0 = Some w0 →
       first_address w0 = Some addr →
       resolveName env fuel wltName serv = Some name →
       NewWalletScanAhead env name
         (serviceCryptoType (Config.CryptoType (config serv)) options) bg = Ok w →
       first_address w = Some addr →
       CreateWallet env fuel wltName options bg serv
       = Some (Fail ErrSeedUsed, serv)).
Proof.
  intros Hall.
  assert (reachable any_callback Demo.serv_swapped) as Hreach.
  { eapply (reachable_step _ Demo.env (OpUpdate "wallet.wlt" Demo.swapEntries));
      [apply Demo_serv0_reachable | apply Demo_env_ok | exact I | reflexivity]. }
  assert (∃ w0 w,
            wallets Demo.serv_swapped !! "wallet.wlt" = Some w0 ∧
            first_address w0 = Some "skycoin:s2" ∧
            NewWalletScanAhead Demo.env "wallet+.wlt"
              (serviceCryptoType (Config.CryptoType (config Demo.serv_swapped))
                 (Demo.skyOptions "s2" "second")) Demo.bg = Ok w ∧
            first_address w = Some "skycoin:s2")
    as (w0 & w & Hw0 & Ha0 & Hnew & Ha)
    by (do 2 eexists; repeat split; vm_compute; reflexivity).
  assert (resolveName Demo.env 5 "" Demo.serv_swapped = Some "wallet+.wlt")
    as Hname by (vm_compute; reflexivity).
  pose proof (Hall Demo.env 5 "" (Demo.skyOptions "s2" "second") Demo.bg
                Demo.serv_swapped "wallet.wlt" w0 "skycoin:s2" "wallet+.wlt" w
                Hreach Hw0 Ha0 Hname Hnew Ha) as Hrun.
  apply (f_equal (λ x, (λ p, is_ok (fst p)) <$> x)) in Hrun.
  vm_compute in Hrun. discriminate Hrun.
Qed.

(** C3, amended.  For every registry state in which the index invariant
    of spec 3 holds (and a disabled service holds no wallet) and that
    contains a wallet whose first address is [addr]: CreateWallet with options from which the
    wallet constructor derives first address [addr] fails with ErrSeedUsed
    and leaves the service, hence the wallet count, the wallets map and
    the index, unchanged. *)
Theorem CreateWallet_seed_used env fuel wltName options bg serv
    id0 w0 addr name w :
  gate_inv serv →
  index_inv serv →
  wallets serv !! id0 = Some w0 →
  first_address w0 = Some addr →
  resolveName env fuel wltName serv = Some name →
  NewWalletScanAhead env name
    (serviceCryptoType (Config.CryptoType (config serv)) options) bg = Ok w →
  first_address w = Some addr →
  CreateWallet env fuel wltName options bg serv = Some (Fail ErrSeedUsed, serv).
Proof.
  intros Hg [Hwi _] Hw0 Ha0 Hname Hnew Ha.
  unfold CreateWallet. rewrite (wallet_present_enabled _ _ _ Hg Hw0). simpl.
  rewrite Hname. f_equal.
  specialize (Hwi _ _ Hw0). simpl in Hwi. rewrite Ha0 in Hwi. simpl in Hwi.
  apply firstAddr_Ok in Ha.
  unfold loadWallet. unfold_monad. rewrite Hnew, Ha. simpl. by rewrite Hwi.
Qed.

Lemma CreateWallet_seed_used_witness :
  CreateWallet Demo.env 5 "" (Demo.skyOptions "s1" "again") Demo.bg Demo.serv1
  = Some (Fail ErrSeedUsed, Demo.serv1).
Proof.
  eapply (CreateWallet_seed_used Demo.env 5 "" (Demo.skyOptions "s1" "again")
            Demo.bg Demo.serv1 "wallet.wlt" _ "skycoin:s1" "wallet+.wlt").
  - apply (reachable_gate_inv any_callback), Demo_serv1_reachable.
  - exact (proj1 (proj2 (reachable_registry_inv _ (Demo_serv1_reachable _)))).
  - vm_compute. reflexivity.
  - vm_compute. reflexivity.
  - vm_compute. reflexivity.
  - vm_compute. reflexivity.
  - vm_compute. reflexivity.
Defined.

(** ** C4: creation is all-or-nothing *)

(** C4.  If CreateWallet reaches the persistence step, the new wallet
    having been inserted into the wallets map, and Save fails with [e]:
    CreateWallet returns [e]; afterwards the id of the new wallet is not
    in the wallets map, is not in what GetWallets returns, and its first
    address is not in the index; the service is what it was. *)
Theorem CreateWallet_save_error env fuel wltName options bg serv name w addr e :
  Config.EnableWalletAPI (config serv) = true →
  resolveName env fuel wltName serv = Some name →
  NewWalletScanAhead env name
    (serviceCryptoType (Config.CryptoType (config serv)) options) bg = Ok w →
  first_address w = Some addr →
  firstAddrIDMap serv !! addr = None →
  Wallets.add (wallets serv) w = Ok (<[Filename w := w]> (wallets serv)) →
  Save env w (Config.WalletDir (config serv)) = Some e →
  ∃ serv',
    CreateWallet env fuel wltName options bg serv = Some (Fail e, serv') ∧
    wallets serv' !! Filename w = None ∧
    (∃ wlts, GetWallets serv' = (Ok wlts, serv') ∧ wlts !! Filename w = None) ∧
    firstAddrIDMap serv' !! addr = None ∧
    serv' = serv.
Proof.
  intros Hen Hname Hnew Ha Hfree Hadd Hsave.
  assert (wallets serv !! Filename w = None) as Hid.
  { unfold Wallets.add in Hadd. by destruct (wallets serv !! Filename w). }
  exists serv. split; [| split; [done | split; [| done]]].
  - unfold CreateWallet. rewrite Hen. simpl. rewrite Hname. f_equal.
    apply firstAddr_Ok in Ha.
    unfold loadWallet. unfold_monad. rewrite Hnew, Ha. simpl.
    rewrite Hfree, Hadd. simpl. rewrite Hsave. simpl. f_equal.
    destruct serv as [wl cf ix]. unfold with_wallets, Wallets.remove. simpl in *.
    f_equal. rewrite delete_insert_eq. by apply delete_id.
  - exists (wallets serv). unfold_monad. by rewrite Hen.
Qed.

Lemma CreateWallet_save_error_witness :
  let env := with_Save Demo.env (save_fails Demo.diskFull) in
  ∃ serv',
    CreateWallet env 5 "" (Demo.skyOptions "s3" "third") Demo.bg Demo.serv1
    = Some (Fail Demo.diskFull, serv') ∧
    wallets serv' !! "wallet+.wlt" = None ∧
    firstAddrIDMap serv' !! "skycoin:s3" = None.
Proof.
  intros env.
  destruct (CreateWallet_save_error env 5 "" (Demo.skyOptions "s3" "third")
              Demo.bg Demo.serv1 "wallet+.wlt"
              {| Filename := "wallet+.wlt"; Label := "third"; coin := "skycoin";
                 walletType := WalletTypeDeterministic; cryptoType := "";
                 IsEncrypted := false; timestamp := 1500000000;
                 seed := "s3"; secrets := "";
                 Entries := Demo.entriesFrom "skycoin" "s3" 0 1 |}
              "skycoin:s3" Demo.diskFull)
    as (serv' & Hrun & Hid & _ & Haddr & _);
    try (vm_compute; reflexivity).
  exists serv'. by repeat split.
Defined.

(** ** C5: recovery with the wrong seed *)

(** C5.  For every existing, encrypted, deterministic wallet:
    RecoverWallet with a seed whose deterministic key pair gives an
    address other than the one of the wallet's first entry fails with
    ErrWalletRecoverSeedWrong and leaves the service, hence the stored
    wallet and the index, unchanged. *)
Theorem RecoverWallet_wrong_seed env serv wltName sd password w pk sk e es :
  gate_inv serv →
  wallets serv !! wltName = Some w →
  IsEncrypted w = true →
  walletType w = WalletTypeDeterministic →
  GenerateDeterministicKeyPair env (String.list_byte_of_string sd) = Ok (pk, sk) →
  Entries w = e :: es →
  addressConstructor env (coin w) pk ≠ Address e →
  RecoverWallet env wltName sd password serv
  = (Fail ErrWalletRecoverSeedWrong, serv).
Proof.
  intros Hg Hw Henc Hty Hkp Hent Hne.
  unfold_monad. rewrite (wallet_present_enabled _ _ _ Hg Hw), Hw, Henc. simpl.
  rewrite bool_decide_eq_true_2 by done. simpl.
  rewrite Hkp, Hent. simpl.
  by rewrite bool_decide_eq_false_2.
Qed.

Lemma RecoverWallet_wrong_seed_witness :
  RecoverWallet Demo.env "wallet.wlt" "s2" [] Demo.serv1
  = (Fail ErrWalletRecoverSeedWrong, Demo.serv1).
Proof.
  eapply (RecoverWallet_wrong_seed Demo.env Demo.serv1 "wallet.wlt" "s2" []).
  - apply (reachable_gate_inv any_callback), Demo_serv1_reachable.
  - vm_compute. reflexivity.
  - reflexivity.
  - reflexivity.
  - vm_compute. reflexivity.
  - reflexivity.
  - vm_compute. intros H. discriminate H.
Defined.

(** ** C6: what recovery installs *)

(** C6, as stated, fails: with an empty password the rebuilt wallet is not
    encrypted, and a wallet construction that records the crypto type only
    when it encrypts gives it the empty crypto type, not the one of the
    old wallet. *)
Lemma RecoverWallet_without_password_drops_crypto_type :
  ¬ (∀ env serv wltName sd password w w2 serv',
       NewWallet_carries_options env →
       reachable any_callback serv →
       wallets serv !! wltName = Some w →
       RecoverWallet env wltName sd password serv = (Ok w2, serv') →
       cryptoType w2 = cryptoType w).
Proof.
  intros Hall.
  assert (∃ w w2,
            wallets Demo.serv1 !! "wallet.wlt" = Some w ∧
            fst (RecoverWallet Demo_env_plain "wallet.wlt" "s1" [] Demo.serv1)
            = Ok w2 ∧
            cryptoType w = CryptoTypeScryptChacha20poly1305 ∧
            cryptoType w2 = "")
    as (w & w2 & Hw & Hrun & Hold & Hnew)
    by (do 2 eexists; repeat split; vm_compute; reflexivity).
  destruct (RecoverWallet Demo_env_plain "wallet.wlt" "s1" [] Demo.serv1)
    as [r serv'] eqn:Hpair.
  simpl in Hrun. subst r.
  pose proof (Hall Demo_env_plain Demo.serv1 "wallet.wlt" "s1" [] w w2 serv'
                Demo_env_plain_carries_options (Demo_serv1_reachable _) Hw Hpair)
    as Heq.
  rewrite Hold, Hnew in Heq. discriminate Heq.
Qed.

(** C6, amended.  When RecoverWallet succeeds for wallet id [wltName] with
    seed [sd] and password [password], the wallet installed under that id
    is the one NewWallet constructs from options that carry the old
    wallet's label, coin type, crypto type and entry count (with the old
    timestamp set): it has the label, coin type and entry count of the
    old wallet and the old wallet's timestamp, it is encrypted if and only
    if the password is not empty, and when the password is not empty it
    has the crypto type of the old wallet. *)
Theorem RecoverWallet_installs_rebuilt_wallet env serv wltName sd password
    w2 serv' :
  NewWallet_carries_options env →
  RecoverWallet env wltName sd password serv = (Ok w2, serv') →
  ∃ w w0,
    wallets serv !! wltName = Some w ∧
    NewWallet env wltName (recoverOptions w sd password) = Ok w0 ∧
    w2 = setTimestamp w0 (timestamp w) ∧
    wallets serv' !! wltName = Some w2 ∧
    Label w2 = Label w ∧
    coin w2 = coin w ∧
    (password ≠ [] → cryptoType w2 = cryptoType w) ∧
    length (Entries w2) = length (Entries w) ∧
    timestamp w2 = timestamp w ∧
    (IsEncrypted w2 = true ↔ password ≠ []).
Proof.
  intros HN Hrun. unfold_monad. simpl in Hrun. repeat destruct_in_hyp.
  match goal with H : NewWallet _ _ _ = Ok ?w0 |- _ =>
    destruct (HN _ _ _ H) as (Hname & Hlabel & Hcoin & Hct & Henc & Hlen);
    rename H into Hnew end.
  simpl in *.
  match goal with H : Entries ?w = _ :: _ |- _ => rename H into Hent end.
  do 2 eexists. split; [done |]. split; [exact Hnew |]. split; [done |].
  unfold Wallets.set. simpl. rewrite Hname, lookup_insert_eq.
  repeat split; try done.
  - intros Hpw. apply Hct. by apply length_not_zero.
  - apply Nat2N.inj. apply Hlen. rewrite Hent. simpl. lia.
  - rewrite Henc. apply length_not_zero.
  - rewrite Henc. apply length_not_zero.
Qed.

Lemma RecoverWallet_installs_rebuilt_wallet_witness :
  ∃ w2 serv',
    RecoverWallet Demo.env "wallet.wlt" "s1" Demo.pw Demo.serv1 = (Ok w2, serv') ∧
    wallets serv' !! "wallet.wlt" = Some w2 ∧
    Label w2 = "first" ∧
    cryptoType w2 = CryptoTypeScryptChacha20poly1305 ∧
    length (Entries w2) = 1 ∧
    (IsEncrypted w2 = true ↔ Demo.pw ≠ []).
Proof.
  destruct (RecoverWallet Demo.env "wallet.wlt" "s1" Demo.pw Demo.serv1)
    as [r serv'] eqn:Hrun.
  assert (is_ok r = true) as Hok.
  { replace r with (fst (RecoverWallet Demo.env "wallet.wlt" "s1" Demo.pw Demo.serv1))
      by by rewrite Hrun.
    vm_compute. reflexivity. }
  destruct r as [w2 | |]; try discriminate Hok.
  destruct (RecoverWallet_installs_rebuilt_wallet Demo.env Demo.serv1
              "wallet.wlt" "s1" Demo.pw w2 serv' Demo_newWallet_carries_options Hrun)
    as (w & w0 & Hw & _ & _ & Hinst & Hlabel & _ & Hct & Hlen & _ & Henc).
  assert (wallets Demo.serv1 !! "wallet.wlt"
            ≫= (λ w, Some (Label w, cryptoType w, length (Entries w)))
          = Some ("first", CryptoTypeScryptChacha20poly1305, 1)) as Hold
    by (vm_compute; reflexivity).
  rewrite Hw in Hold. simpl in Hold. injection Hold as Hl Hc Hn.
  assert (Demo.pw ≠ []) as Hpw by (intros H; discriminate H).
  exists w2, serv'.
  split; [reflexivity |]. split; [exact Hinst |].
  split; [by rewrite Hlabel |]. split; [by rewrite (Hct Hpw) |].
  split; [by rewrite Hlen |]. exact Henc.
Defined.

(** ** C7: precondition errors of EncryptWallet and DecryptWallet *)

(** C7, as stated, fails: on a service whose wallet API is disabled (the
    default config) EncryptWallet of an unknown id returns
    ErrWalletAPIDisabled, not ErrWalletNotExist. *)
Lemma EncryptWallet_unknown_id_on_disabled_service :
  ¬ (∀ env serv wltID password,
       reachable any_callback serv →
       wallets serv !! wltID = None →
       fst (EncryptWallet env wltID password serv) = Fail ErrWalletNotExist).
Proof.
  intros Hall.
  assert (reachable any_callback Demo.serv_off) as Hreach.
  { eapply (reachable_init _ Demo.env NewConfig);
      [apply Demo_env_ok | vm_compute; reflexivity]. }
  specialize (Hall Demo.env Demo.serv_off "nowallet.wlt" Demo.pw Hreach eq_refl).
  vm_compute in Hall. discriminate Hall.
Qed.

(** C7, amended.  When the wallet API is enabled: EncryptWallet fails with
    ErrWalletNotExist when the id is not in the registry and with
    ErrWalletEncrypted when the wallet is already encrypted; DecryptWallet
    fails with ErrWalletNotEncrypted when the wallet is not encrypted; in
    each case the service is unchanged. *)
Theorem Encrypt_Decrypt_precondition_errors env serv wltID password :
  Config.EnableWalletAPI (config serv) = true →
  (wallets serv !! wltID = None →
   EncryptWallet env wltID password serv = (Fail ErrWalletNotExist, serv)) ∧
  (∀ w, wallets serv !! wltID = Some w → IsEncrypted w = true →
   EncryptWallet env wltID password serv = (Fail ErrWalletEncrypted, serv)) ∧
  (∀ w, wallets serv !! wltID = Some w → IsEncrypted w = false →
   DecryptWallet env wltID password serv = (Fail ErrWalletNotEncrypted, serv)).
Proof.
  intros Hen. repeat split.
  - intros Hw. unfold_monad. by rewrite Hen, Hw.
  - intros w Hw Henc. unfold_monad. by rewrite Hen, Hw, Henc.
  - intros w Hw Henc. unfold_monad. by rewrite Hen, Hw, Henc.
Qed.

Lemma Encrypt_Decrypt_precondition_errors_witness :
  EncryptWallet Demo.env "nowallet.wlt" Demo.pw Demo.serv1
  = (Fail ErrWalletNotExist, Demo.serv1) ∧
  EncryptWallet Demo.env "wallet.wlt" Demo.pw Demo.serv1
  = (Fail ErrWalletEncrypted, Demo.serv1) ∧
  DecryptWallet Demo.env "wallet.wlt" Demo.pw Demo.serv0
  = (Fail ErrWalletNotEncrypted, Demo.serv0).
Proof.
  destruct (Encrypt_Decrypt_precondition_errors Demo.env Demo.serv1
              "nowallet.wlt" Demo.pw eq_refl) as (Hnone & _ & _).
  destruct (Encrypt_Decrypt_precondition_errors Demo.env Demo.serv1
              "wallet.wlt" Demo.pw eq_refl) as (_ & Henc & _).
  destruct (Encrypt_Decrypt_precondition_errors Demo.env Demo.serv0
              "wallet.wlt" Demo.pw eq_refl) as (_ & _ & Hdec).
  split; [apply Hnone; vm_compute; reflexivity |].
  split; [eapply Henc; vm_compute; reflexivity |].
  eapply Hdec; vm_compute; reflexivity.
Defined.

(** ** C8: guarded access leaves the wallet encrypted *)

Lemma still_encrypted_unchanged serv wltID w :
  Config.EnableWalletAPI (config serv) = true →
  wallets serv !! wltID = Some w → IsEncrypted w = true →
  still_encrypted wltID serv.
Proof.
  intros Hen Hw Henc. exists w. unfold_monad. by rewrite Hen, Hw.
Qed.

Lemma still_encrypted_set serv wltID w w' :
  Config.EnableWalletAPI (config serv) = true →
  wallets serv !! wltID = Some w → IsEncrypted w = true →
  IsEncrypted w' = true →
  still_encrypted wltID (with_wallets serv (Wallets.set (wallets serv) w')).
Proof.
  intros Hen Hw Henc Henc'. unfold still_encrypted, Wallets.set. unfold_monad.
  simpl. rewrite Hen. simpl. rewrite lookup_insert. case_decide; simpl; eauto.
  rewrite Hw. eauto.
Qed.

(** C8.  For every wallet that is encrypted in the registry: after
    NewAddresses, UpdateSecrets, GetWalletSeed or ViewSecrets on it
    returns, with success or with an error, GetWallet of its id returns a
    wallet that reports encrypted. *)
Theorem guarded_access_keeps_encrypted env serv wltID w :
  Lock_encrypts env →
  gate_inv serv →
  wallets serv !! wltID = Some w →
  IsEncrypted w = true →
  ∀ (password : Password) (num : N) (f : Callback),
    still_encrypted wltID (snd (NewAddresses env wltID password num serv)) ∧
    still_encrypted wltID (snd (UpdateSecrets env wltID password f serv)) ∧
    still_encrypted wltID (snd (GetWalletSeed env wltID password serv)) ∧
    still_encrypted wltID (snd (ViewSecrets env wltID password f serv)).
Proof.
  intros HL Hg Hw Henc password num f.
  pose proof (wallet_present_enabled _ _ _ Hg Hw) as Hen.
  pose proof (still_encrypted_unchanged _ _ _ Hen Hw Henc) as Hsame.
  split; [| split; [| split]]; unfold_monad; split_run; try exact Hsame;
    eapply still_encrypted_set; try done; by eapply HL.
Qed.

Lemma guarded_access_keeps_encrypted_witness :
  still_encrypted "wallet.wlt"
    (snd (NewAddresses Demo.env "wallet.wlt" Demo.pw 2 Demo.serv1)) ∧
  still_encrypted "wallet.wlt"
    (snd (UpdateSecrets Demo.env "wallet.wlt" Demo.pw Demo.swapEntries Demo.serv1)) ∧
  still_encrypted "wallet.wlt"
    (snd (GetWalletSeed Demo.env "wallet.wlt" Demo.pw Demo.serv1)) ∧
  still_encrypted "wallet.wlt"
    (snd (ViewSecrets Demo.env "wallet.wlt" Demo.pw Demo.swapEntries Demo.serv1)).
Proof.
  assert (∃ w, wallets Demo.serv1 !! "wallet.wlt" = Some w ∧ IsEncrypted w = true)
    as (w & Hw & Henc) by (eexists; split; vm_compute; reflexivity).
  exact (guarded_access_keeps_encrypted Demo.env Demo.serv1 "wallet.wlt" w
           Demo_lock_encrypts
           (reachable_gate_inv any_callback _ (Demo_serv1_reachable _))
           Hw Henc Demo.pw 2%N Demo.swapEntries).
Defined.

(** ** C9: a password for an unencrypted wallet *)

(** C9.  For every unencrypted wallet in the registry: NewAddresses,
    UpdateSecrets and ViewSecrets called with a non-empty password fail
    with ErrWalletNotEncrypted and leave the service unchanged. *)
Theorem unencrypted_wallet_rejects_password env serv wltID w password :
  gate_inv serv →
  wallets serv !! wltID = Some w →
  IsEncrypted w = false →
  password ≠ [] →
  ∀ (num : N) (f : Callback),
    NewAddresses env wltID password num serv = (Fail ErrWalletNotEncrypted, serv) ∧
    UpdateSecrets env wltID password f serv = (Fail ErrWalletNotEncrypted, serv) ∧
    ViewSecrets env wltID password f serv = (Fail ErrWalletNotEncrypted, serv).
Proof.
  intros Hg Hw Henc Hpw num f.
  pose proof (wallet_present_enabled _ _ _ Hg Hw) as Hen.
  apply length_not_zero in Hpw.
  split; [| split]; unfold_monad; rewrite Hen; simpl; rewrite Hw; simpl;
    rewrite Henc; simpl; by rewrite Hpw.
Qed.

Lemma unencrypted_wallet_rejects_password_witness :
  NewAddresses Demo.env "wallet.wlt" Demo.pw 1 Demo.serv0
  = (Fail ErrWalletNotEncrypted, Demo.serv0) ∧
  UpdateSecrets Demo.env "wallet.wlt" Demo.pw Demo.readOnly Demo.serv0
  = (Fail ErrWalletNotEncrypted, Demo.serv0) ∧
  ViewSecrets Demo.env "wallet.wlt" Demo.pw Demo.readOnly Demo.serv0
  = (Fail ErrWalletNotEncrypted, Demo.serv0).
Proof.
  assert (∃ w, wallets Demo.serv0 !! "wallet.wlt" = Some w ∧ IsEncrypted w = false)
    as (w & Hw & Henc) by (eexists; split; vm_compute; reflexivity).
  assert (Demo.pw ≠ []) as Hpw by (intros H; discriminate H).
  exact (unencrypted_wallet_rejects_password Demo.env Demo.serv0 "wallet.wlt" w
           Demo.pw
           (reachable_gate_inv any_callback _ (Demo_serv0_reachable _))
           Hw Henc Hpw 1%N Demo.readOnly).
Defined.

(** ** C10: UnloadWallet *)

Lemma UnloadWallet_absent serv wltID :
  Config.EnableWalletAPI (config serv) = true →
  wallets serv !! wltID = None →
  UnloadWallet wltID serv = (Ok tt, serv).
Proof.
  intros Hen Hw. unfold_monad. rewrite Hen, Hw. simpl.
  destruct serv as [wl cf ix]. unfold with_wallets, Wallets.remove. simpl in *.
  by rewrite delete_id.
Qed.

(** C10.  When the wallet API is enabled, UnloadWallet returns no error,
    also for an id that is not in the registry (the service is then
    unchanged), and it is idempotent: a second UnloadWallet of the same id
    returns no error and leaves the service unchanged. *)
Theorem UnloadWallet_succeeds_and_is_idempotent serv wltID :
  Config.EnableWalletAPI (config serv) = true →
  ∃ serv1,
    UnloadWallet wltID serv = (Ok tt, serv1) ∧
    wallets serv1 !! wltID = None ∧
    UnloadWallet wltID serv1 = (Ok tt, serv1) ∧
    (wallets serv !! wltID = None → serv1 = serv).
Proof.
  intros Hen.
  destruct (wallets serv !! wltID) as [w |] eqn:Hw.
  - assert (∃ serv1, UnloadWallet wltID serv = (Ok tt, serv1) ∧
                     config serv1 = config serv ∧
                     wallets serv1 = delete wltID (wallets serv))
      as (serv1 & Hrun & Hcfg & Hwl).
    { unfold_monad. rewrite Hen, Hw. simpl. unfold Wallets.remove.
      destruct (Entries w); simpl; eexists; split; try reflexivity; by simpl. }
    exists serv1. split; [done |].
    assert (wallets serv1 !! wltID = None) as Hgone
      by (rewrite Hwl; apply lookup_delete_eq).
    split; [done |]. split; [| done].
    apply UnloadWallet_absent; [by rewrite Hcfg | done].
  - exists serv. pose proof (UnloadWallet_absent _ _ Hen Hw) as Hrun.
    by repeat split.
Qed.

Lemma UnloadWallet_succeeds_and_is_idempotent_witness :
  ∃ serv1,
    UnloadWallet "nowallet.wlt" Demo.serv1 = (Ok tt, serv1) ∧
    UnloadWallet "nowallet.wlt" serv1 = (Ok tt, serv1) ∧
    serv1 = Demo.serv1.
Proof.
  destruct (UnloadWallet_succeeds_and_is_idempotent Demo.serv1 "nowallet.wlt"
              eq_refl) as (serv1 & H1 & _ & H2 & H3).
  exists serv1. split; [exact H1 |]. split; [exact H2 |].
  apply H3. vm_compute. reflexivity.
Defined.

(** * Further properties of the service *)

(** ** The API switch *)

(** X1.  With the wallet API disabled every operation returns
    ErrWalletAPIDisabled before it reads the registry or calls a
    collaborator, and the service is unchanged. *)
Theorem disabled_api_rejects_every_operation env serv :
  Config.EnableWalletAPI (config serv) = false →
  WalletDir serv = (Fail ErrWalletAPIDisabled, serv) ∧
  (∀ fuel wltName options bg,
     CreateWallet env fuel wltName options bg serv
     = Some (Fail ErrWalletAPIDisabled, serv)) ∧
  (∀ wltID password,
     EncryptWallet env wltID password serv = (Fail ErrWalletAPIDisabled, serv) ∧
     DecryptWallet env wltID password serv = (Fail ErrWalletAPIDisabled, serv) ∧
     GetWalletSeed env wltID password serv = (Fail ErrWalletAPIDisabled, serv)) ∧
  (∀ wltID password num,
     NewAddresses env wltID password num serv
     = (Fail ErrWalletAPIDisabled, serv)) ∧
  (∀ wltID,
     GetSkycoinAddressesOf env wltID serv = (Fail ErrWalletAPIDisabled, serv) ∧
     GetWallet wltID serv = (Fail ErrWalletAPIDisabled, serv) ∧
     UnloadWallet wltID serv = (Fail ErrWalletAPIDisabled, serv)) ∧
  GetWallets serv = (Fail ErrWalletAPIDisabled, serv) ∧
  (∀ wltID label,
     UpdateWalletLabel env wltID label serv = (Fail ErrWalletAPIDisabled, serv)) ∧
  (∀ wltID password f,
     UpdateSecrets env wltID password f serv = (Fail ErrWalletAPIDisabled, serv) ∧
     ViewSecrets env wltID password f serv = (Fail ErrWalletAPIDisabled, serv)) ∧
  (∀ wltID f,
     Update env wltID f serv = (Fail ErrWalletAPIDisabled, serv) ∧
     View wltID f serv = (Fail ErrWalletAPIDisabled, serv)) ∧
  (∀ wltName sd password,
     RecoverWallet env wltName sd password serv
     = (Fail ErrWalletAPIDisabled, serv)).
Proof.
  intros Hoff. unfold CreateWallet. unfold_monad. rewrite !Hoff.
  repeat split; reflexivity.
Qed.

Lemma disabled_api_rejects_every_operation_witness :
  GetWallets Demo.serv_off = (Fail ErrWalletAPIDisabled, Demo.serv_off) ∧
  CreateWallet Demo.env 3 "" (Demo.skyOptions "s1" "first") Demo.bg Demo.serv_off
  = Some (Fail ErrWalletAPIDisabled, Demo.serv_off).
Proof.
  destruct (disabled_api_rejects_every_operation Demo.env Demo.serv_off eq_refl)
    as (_ & Hcreate & _ & _ & _ & Hall & _).
  split; [exact Hall | apply Hcreate].
Defined.

(** ** Operations that only read *)

(** X2.  WalletDir, GetSkycoinAddresses, GetWallet, GetWallets, GetWalletSeed,
    ViewSecrets and View never change the service, whatever they return
    and whatever the callback does to the wallet it is handed. *)
Theorem read_operations_leave_service_unchanged env serv :
  snd (WalletDir serv) = serv ∧
  snd (GetWallets serv) = serv ∧
  (∀ wltID,
     snd (GetSkycoinAddressesOf env wltID serv) = serv ∧
     snd (GetWallet wltID serv) = serv) ∧
  (∀ wltID password, snd (GetWalletSeed env wltID password serv) = serv) ∧
  (∀ wltID password f, snd (ViewSecrets env wltID password f serv) = serv) ∧
  (∀ wltID f, snd (View wltID f serv) = serv).
Proof.
  repeat split; intros; unfold_monad; by split_run.
Qed.

(** ** Failure leaves the registry untouched *)

(** X3.  An operation that does not return a value (it returns an error, from
    whatever step, or panics) leaves the service exactly as it found it. *)
Theorem failed_operation_leaves_service_unchanged env serv :
  (∀ fuel wltName options bg r serv',
     CreateWallet env fuel wltName options bg serv = Some (r, serv') →
     is_ok r = false → serv' = serv) ∧
  (∀ wltID password,
     (is_ok (fst (EncryptWallet env wltID password serv)) = false →
      snd (EncryptWallet env wltID password serv) = serv) ∧
     (is_ok (fst (DecryptWallet env wltID password serv)) = false →
      snd (DecryptWallet env wltID password serv) = serv)) ∧
  (∀ wltID password num,
     is_ok (fst (NewAddresses env wltID password num serv)) = false →
     snd (NewAddresses env wltID password num serv) = serv) ∧
  (∀ wltID label,
     is_ok (fst (UpdateWalletLabel env wltID label serv)) = false →
     snd (UpdateWalletLabel env wltID label serv) = serv) ∧
  (∀ wltID password f,
     is_ok (fst (UpdateSecrets env wltID password f serv)) = false →
     snd (UpdateSecrets env wltID password f serv) = serv) ∧
  (∀ wltID f,
     is_ok (fst (Update env wltID f serv)) = false →
     snd (Update env wltID f serv) = serv) ∧
  (∀ wltName sd password,
     is_ok (fst (RecoverWallet env wltName sd password serv)) = false →
     snd (RecoverWallet env wltName sd password serv) = serv) ∧
  (∀ wltID,
     is_ok (fst (UnloadWallet wltID serv)) = false →
     snd (UnloadWallet wltID serv) = serv).
Proof.
  split.
  { intros fuel wltName options bg r serv'. unfold CreateWallet.
    destruct (Config.EnableWalletAPI (config serv)); simpl;
      [| by intros [= _ <-]].
    destruct (resolveName env fuel wltName serv) as [name |]; [| done].
    intros [= Hrun]. revert Hrun.
    unfold loadWallet, Wallets.add, Wallets.remove. unfold_monad.
    split_run; intros [= <- <-]; try done.
    intros _. destruct serv as [wl cf ix]. unfold with_wallets. simpl in *.
    f_equal. rewrite delete_insert_eq. by apply delete_id. }
  repeat split; intros; revert H; unfold_monad; by split_run.
Qed.

Lemma failed_operation_leaves_service_unchanged_witness :
  snd (DecryptWallet Demo.env "wallet.wlt" [] Demo.serv1) = Demo.serv1.
Proof.
  destruct (failed_operation_leaves_service_unchanged Demo.env Demo.serv1)
    as (_ & Hcrypt & _).
  apply (Hcrypt "wallet.wlt" []). vm_compute. reflexivity.
Defined.

(** ** Creating a wallet *)

Lemma CreateWallet_Ok_inv env fuel wltName options bg serv w serv' :
  CreateWallet env fuel wltName options bg serv = Some (Ok w, serv') →
  ∃ addr,
    first_address w = Some addr ∧
    wallets serv !! Filename w = None ∧
    firstAddrIDMap serv !! addr = None ∧
    wallets serv' = <[Filename w := w]> (wallets serv) ∧
    firstAddrIDMap serv' = <[addr := Filename w]> (firstAddrIDMap serv) ∧
    config serv' = config serv ∧
    size (wallets serv') = S (size (wallets serv)).
Proof.
  unfold CreateWallet.
  destruct (Config.EnableWalletAPI (config serv)); simpl; [| done].
  destruct (resolveName env fuel wltName serv) as [name |]; [| done].
  intros [= Hrun]. revert Hrun.
  unfold loadWallet, Wallets.add, Wallets.remove. unfold_monad.
  split_run; intros [= <- <-].
  match goal with H : firstAddr _ = Ok ?a |- _ =>
    exists a; apply firstAddr_Ok in H end.
  simpl. repeat split; try done. by apply map_size_insert_None.
Qed.

(** X4.  When CreateWallet succeeds, the wallet it returns is new to the
    registry under its id and its first address was not indexed; the
    service afterwards is the old one with exactly that wallet added and
    that one index entry added, so the number of wallets grows by one. *)
Theorem CreateWallet_success env fuel wltName options bg serv w serv' :
  CreateWallet env fuel wltName options bg serv = Some (Ok w, serv') →
  ∃ addr,
    first_address w = Some addr ∧
    wallets serv !! Filename w = None ∧
    firstAddrIDMap serv !! addr = None ∧
    wallets serv' = <[Filename w := w]> (wallets serv) ∧
    firstAddrIDMap serv' = <[addr := Filename w]> (firstAddrIDMap serv) ∧
    config serv' = config serv ∧
    size (wallets serv') = S (size (wallets serv)).
Proof. apply CreateWallet_Ok_inv. Qed.

Lemma Demo_create_third :
  ∃ w serv',
    CreateWallet Demo.env 5 "" (Demo.skyOptions "s3" "third") Demo.bg Demo.serv1
    = Some (Ok w, serv').
Proof.
  destruct (CreateWallet Demo.env 5 "" (Demo.skyOptions "s3" "third") Demo.bg
              Demo.serv1) as [[r serv'] |] eqn:Hrun.
  - assert (is_ok r = true) as Hok.
    { replace r with
        (default Panic (fst <$> CreateWallet Demo.env 5 ""
           (Demo.skyOptions "s3" "third") Demo.bg Demo.serv1))
        by by rewrite Hrun.
      vm_compute. reflexivity. }
    destruct r as [w | |]; try discriminate Hok. by exists w, serv'.
  - exfalso.
    assert (is_Some (CreateWallet Demo.env 5 "" (Demo.skyOptions "s3" "third")
                       Demo.bg Demo.serv1)) as [x Hx]
      by (vm_compute; eexists; reflexivity).
    rewrite Hrun in Hx. discriminate Hx.
Defined.

Lemma CreateWallet_success_witness :
  ∃ w serv',
    CreateWallet Demo.env 5 "" (Demo.skyOptions "s3" "third") Demo.bg Demo.serv1
    = Some (Ok w, serv') ∧
    size (wallets serv') = S (size (wallets Demo.serv1)).
Proof.
  destruct Demo_create_third as (w & serv' & Hrun).
  destruct (CreateWallet_success _ _ _ _ _ _ _ _ Hrun)
    as (addr & _ & _ & _ & _ & _ & _ & Hsize).
  exists w, serv'. split; [exact Hrun | exact Hsize].
Defined.

(** X5.  CreateWallet followed by UnloadWallet of the new wallet's id gives the
    service back exactly as it was before the wallet was created. *)
Theorem CreateWallet_then_UnloadWallet env fuel wltName options bg serv w serv' :
  CreateWallet env fuel wltName options bg serv = Some (Ok w, serv') →
  UnloadWallet (Filename w) serv' = (Ok tt, serv).
Proof.
  intros Hrun.
  assert (Config.EnableWalletAPI (config serv) = true) as Hen.
  { unfold CreateWallet in Hrun.
    by destruct (Config.EnableWalletAPI (config serv)). }
  destruct (CreateWallet_Ok_inv _ _ _ _ _ _ _ _ Hrun)
    as (addr & Ha & Hnew & Hfree & Hwl & Hix & Hcfg & _).
  unfold first_address in Ha.
  unfold_monad. rewrite Hcfg, Hen, Hwl, lookup_insert_eq. simpl.
  destruct (Entries w) as [| e es]; [done |]. simpl. simplify_eq.
  unfold Wallets.remove. simpl. rewrite Hwl, Hix.
  destruct serv as [wl cf ix]. destruct serv' as [wl' cf' ix'].
  unfold with_wallets, with_firstAddrIDMap. simpl in *. subst.
  rewrite !delete_insert_eq, !delete_id by done. reflexivity.
Qed.

Lemma CreateWallet_then_UnloadWallet_witness :
  ∃ w serv',
    CreateWallet Demo.env 5 "" (Demo.skyOptions "s3" "third") Demo.bg Demo.serv1
    = Some (Ok w, serv') ∧
    UnloadWallet (Filename w) serv' = (Ok tt, Demo.serv1).
Proof.
  destruct Demo_create_third as (w & serv' & Hrun).
  exists w, serv'. split; [exact Hrun |].
  exact (CreateWallet_then_UnloadWallet _ _ _ _ _ _ _ _ Hrun).
Defined.

Lemma generateUniqueWalletFilename_from_Some env fuel n serv name :
  generateUniqueWalletFilename_from env fuel n serv = Some name →
  wallets serv !! name = None ∧
  ∃ k, (k < fuel)%nat ∧ name = NewWalletFilename env (n + k) ∧
       ∀ j, (j < k)%nat → is_Some (wallets serv !! NewWalletFilename env (n + j)).
Proof.
  revert n. induction fuel as [| fuel IH]; intros n; simpl; [done |].
  unfold Wallets.get.
  destruct (wallets serv !! NewWalletFilename env n) as [w |] eqn:Hn.
  - intros Hgen. destruct (IH _ Hgen) as (Hfree & k & Hk & Hname & Hused).
    split; [done |]. exists (S k). split; [lia |].
    split; [by rewrite Nat.add_succ_r |].
    intros [| j] Hj.
    + rewrite Nat.add_0_r, Hn. by eexists.
    + rewrite Nat.add_succ_r. apply Hused. lia.
  - intros [= <-]. split; [done |]. exists 0%nat. split; [lia |].
    split; [by rewrite Nat.add_0_r |]. intros j Hj. lia.
Qed.

(** X6.  The name generateUniqueWalletFilename returns is not the id of any
    wallet of the registry, and it is the first such name drawn. *)
Theorem generateUniqueWalletFilename_unused env fuel serv name :
  generateUniqueWalletFilename env fuel serv = Some name →
  wallets serv !! name = None ∧
  ∃ k, (k < fuel)%nat ∧ name = NewWalletFilename env k ∧
       ∀ j, (j < k)%nat → is_Some (wallets serv !! NewWalletFilename env j).
Proof.
  intros Hgen. by apply generateUniqueWalletFilename_from_Some in Hgen.
Qed.

Lemma generateUniqueWalletFilename_unused_witness :
  generateUniqueWalletFilename Demo.env 5 Demo.serv1 = Some "wallet+.wlt" ∧
  wallets Demo.serv1 !! "wallet+.wlt" = None.
Proof.
  assert (generateUniqueWalletFilename Demo.env 5 Demo.serv1 = Some "wallet+.wlt")
    as Hgen by (vm_compute; reflexivity).
  split; [exact Hgen |].
  exact (proj1 (generateUniqueWalletFilename_unused _ _ _ _ Hgen)).
Defined.

Lemma generateUniqueWalletFilename_from_enough env fuel n k serv :
  wallets serv !! NewWalletFilename env (n + k) = None →
  (k < fuel)%nat →
  is_Some (generateUniqueWalletFilename_from env fuel n serv).
Proof.
  revert n k. induction fuel as [| fuel IH]; intros n k Hfree Hk; [lia |].
  simpl. unfold Wallets.get.
  destruct (wallets serv !! NewWalletFilename env n) as [w |] eqn:Hn;
    [| by eexists].
  destruct k as [| k]; [by rewrite Nat.add_0_r, Hn in Hfree |].
  apply (IH (S n) k); [| lia]. by rewrite Nat.add_succ_r in Hfree.
Qed.

(** X7.  The search for a name ends: if the k-th name drawn is unused and more
    than k draws are allowed, a name is returned. *)
Theorem generateUniqueWalletFilename_terminates env fuel k serv :
  wallets serv !! NewWalletFilename env k = None →
  (k < fuel)%nat →
  is_Some (generateUniqueWalletFilename env fuel serv).
Proof.
  intros Hfree Hk. by apply (generateUniqueWalletFilename_from_enough env fuel 0 k).
Qed.

Lemma generateUniqueWalletFilename_terminates_witness :
  is_Some (generateUniqueWalletFilename Demo.env 2 Demo.serv1).
Proof.
  apply (generateUniqueWalletFilename_terminates Demo.env 2 1 Demo.serv1).
  - vm_compute. reflexivity.
  - lia.
Defined.

(** X8.  When the options ask for encryption, the crypto type the caller
    put in the options is ignored: two calls whose options differ only in
    the crypto type behave identically, and the wallet is constructed
    with the crypto type of the service's config: the wallet CreateWallet
    returns is the one the constructor builds from the options with the
    config's crypto type, and an error of the constructor on those
    options is the error CreateWallet returns. *)
Theorem CreateWallet_ignores_requested_crypto_type env fuel wltName bg serv
    (o o' : Options.t) :
  Options.Encrypt o = true →
  Options.Encrypt o' = true →
  Options.Coin o' = Options.Coin o →
  Options.Label o' = Options.Label o →
  Options.Seed o' = Options.Seed o →
  Options.Password o' = Options.Password o →
  Options.GenerateN o' = Options.GenerateN o →
  CreateWallet env fuel wltName o' bg serv = CreateWallet env fuel wltName o bg serv ∧
  (∀ w serv',
     CreateWallet env fuel wltName o bg serv = Some (Ok w, serv') →
     ∃ name,
       resolveName env fuel wltName serv = Some name ∧
       NewWalletScanAhead env name
         (Options_with_CryptoType o (Config.CryptoType (config serv))) bg = Ok w) ∧
  (∀ name e,
     Config.EnableWalletAPI (config serv) = true →
     resolveName env fuel wltName serv = Some name →
     NewWalletScanAhead env name
       (Options_with_CryptoType o (Config.CryptoType (config serv))) bg = Fail e →
     CreateWallet env fuel wltName o bg serv = Some (Fail e, serv)).
Proof.
  intros He He' Hc Hl Hs Hp Hn.
  assert (∀ ct, serviceCryptoType ct o' = serviceCryptoType ct o) as Heq.
  { intros ct. unfold serviceCryptoType. rewrite He, He'. by rewrite Hc, Hl, Hs, Hp, Hn. }
  assert (∀ ct, serviceCryptoType ct o = Options_with_CryptoType o ct) as Hwith.
  { intros ct. unfold serviceCryptoType, Options_with_CryptoType. by rewrite He. }
  split; [| split].
  - unfold CreateWallet, loadWallet. unfold_monad.
    destruct (Config.EnableWalletAPI (config serv)); simpl; [| done].
    destruct (resolveName env fuel wltName serv); [| done].
    by rewrite Heq.
  - intros w serv'. unfold CreateWallet.
    destruct (Config.EnableWalletAPI (config serv)); simpl; [| done].
    destruct (resolveName env fuel wltName serv) as [name |]; [| done].
    intros [= Hrun]. exists name. split; [done |]. revert Hrun.
    unfold loadWallet, Wallets.add. unfold_monad. rewrite Hwith.
    split_run; by intros [= <- <-].
  - intros name e Hen Hname Hnew. unfold CreateWallet. rewrite Hen. simpl.
    rewrite Hname. unfold loadWallet. unfold_monad. by rewrite Hwith, Hnew.
Qed.

Lemma CreateWallet_ignores_requested_crypto_type_witness :
  let o ct :=
    {| Options.Coin := "skycoin"; Options.Label := "locked"; Options.Seed := "s4";
       Options.Encrypt := true; Options.Password := Demo.pw;
       Options.CryptoType := ct; Options.GenerateN := 1 |} in
  CreateWallet Demo.env 5 "" (o "sha256-xor") Demo.bg Demo.serv0
  = CreateWallet Demo.env 5 "" (o "") Demo.bg Demo.serv0 ∧
  ∃ w serv',
    CreateWallet Demo.env 5 "" (o "sha256-xor") Demo.bg Demo.serv0
    = Some (Ok w, serv') ∧
    cryptoType w = Config.CryptoType (config Demo.serv0).
Proof.
  intros o.
  destruct (CreateWallet_ignores_requested_crypto_type Demo.env 5 "" Demo.bg
              Demo.serv0 (o "sha256-xor") (o "")
              eq_refl eq_refl eq_refl eq_refl eq_refl eq_refl eq_refl)
    as (Hsame & Hbuilt & _).
  split; [symmetry; exact Hsame |].
  destruct (CreateWallet Demo.env 5 "" (o "sha256-xor") Demo.bg Demo.serv0)
    as [[r serv'] |] eqn:Hrun.
  - assert (is_ok r = true) as Hok.
    { replace r with
        (default Panic (fst <$> CreateWallet Demo.env 5 "" (o "sha256-xor")
                                  Demo.bg Demo.serv0))
        by by rewrite Hrun.
      vm_compute. reflexivity. }
    destruct r as [w | |]; try discriminate Hok.
    exists w, serv'. split; [reflexivity |].
    destruct (Hbuilt w serv' eq_refl) as (name & _ & Hnew).
    destruct (Demo_newWallet_carries_options _ _ _ Hnew)
      as (_ & _ & _ & Hct & _).
    exact (Hct eq_refl).
  - exfalso.
    assert (is_Some (CreateWallet Demo.env 5 "" (o "sha256-xor") Demo.bg Demo.serv0))
      as [x Hx] by (vm_compute; eexists; reflexivity).
    rewrite Hrun in Hx. discriminate Hx.
Defined.

(** X9.  A constructed wallet without entries makes CreateWallet panic at
    [w.Entries[0]], before anything is added to the registry. *)
Theorem CreateWallet_panics_on_empty_wallet env fuel wltName options bg serv name w :
  Config.EnableWalletAPI (config serv) = true →
  resolveName env fuel wltName serv = Some name →
  NewWalletScanAhead env name
    (serviceCryptoType (Config.CryptoType (config serv)) options) bg = Ok w →
  Entries w = [] →
  CreateWallet env fuel wltName options bg serv = Some (Panic, serv).
Proof.
  intros Hen Hname Hnew Hent. unfold CreateWallet. rewrite Hen. simpl.
  rewrite Hname. unfold loadWallet, firstAddr. unfold_monad.
  by rewrite Hnew, Hent.
Qed.

Lemma CreateWallet_panics_on_empty_wallet_witness :
  CreateWallet Demo_env_bad 5 "" (Demo.skyOptions "s3" "third") Demo.bg Demo.serv1
  = Some (Panic, Demo.serv1).
Proof.
  apply (CreateWallet_panics_on_empty_wallet Demo_env_bad 5 ""
           (Demo.skyOptions "s3" "third") Demo.bg Demo.serv1 "wallet+.wlt"
           (Demo_emptyWallet "wallet+.wlt")).
  - reflexivity.
  - vm_compute. reflexivity.
  - reflexivity.
  - reflexivity.
Defined.

(** X10.  CreateWallet under a name that is already the id of a wallet fails
    with the error of [Wallets.add], and the service is unchanged, when
    the seed is not in use. *)
Theorem CreateWallet_name_taken env fuel wltName options bg serv w addr e :
  Config.EnableWalletAPI (config serv) = true →
  wltName ≠ "" →
  NewWalletScanAhead env wltName
    (serviceCryptoType (Config.CryptoType (config serv)) options) bg = Ok w →
  first_address w = Some addr →
  firstAddrIDMap serv !! addr = None →
  Wallets.add (wallets serv) w = Fail e →
  CreateWallet env fuel wltName options bg serv = Some (Fail e, serv).
Proof.
  intros Hen Hname Hnew Ha Hfree Hadd. unfold CreateWallet, resolveName.
  rewrite Hen. simpl. rewrite decide_False by done.
  apply firstAddr_Ok in Ha. unfold loadWallet. unfold_monad.
  rewrite Hnew, Ha. simpl. by rewrite Hfree, Hadd.
Qed.

Lemma CreateWallet_name_taken_witness :
  CreateWallet Demo.env 0 "wallet.wlt" (Demo.skyOptions "s3" "third") Demo.bg
    Demo.serv1
  = Some (Fail ErrWalletNameConflict, Demo.serv1).
Proof.
  eapply (CreateWallet_name_taken Demo.env 0 "wallet.wlt"
            (Demo.skyOptions "s3" "third") Demo.bg Demo.serv1 _ "skycoin:s3").
  - reflexivity.
  - intros H. discriminate H.
  - vm_compute. reflexivity.
  - vm_compute. reflexivity.
  - vm_compute. reflexivity.
  - vm_compute. reflexivity.
Defined.

(** ** Updating, unloading, encrypting *)

(** X11.  A successful UpdateWalletLabel on a wallet filed under its own id
    changes the label of that wallet and nothing else: GetWallet returns
    the old wallet with the new label, every other wallet and the whole
    index are as before. *)
Theorem UpdateWalletLabel_success env serv wltID label serv' :
  keys_match serv →
  UpdateWalletLabel env wltID label serv = (Ok tt, serv') →
  ∃ w,
    wallets serv !! wltID = Some w ∧
    GetWallet wltID serv' = (Ok (setLabel w label), serv') ∧
    (∀ id, id ≠ wltID → wallets serv' !! id = wallets serv !! id) ∧
    firstAddrIDMap serv' = firstAddrIDMap serv ∧
    config serv' = config serv.
Proof.
  intros Hk Hrun.
  assert (∃ w, wallets serv !! wltID = Some w ∧
               Config.EnableWalletAPI (config serv) = true ∧
               serv' = with_wallets serv
                         (Wallets.set (wallets serv) (setLabel w label)))
    as (w & Hw & Hen & ->).
  { revert Hrun. unfold_monad. split_run; intros [= <-]. eauto. }
  pose proof (Hk _ _ Hw) as Hid. simpl in Hid.
  exists w. split; [done |]. unfold_monad. unfold Wallets.set. simpl.
  rewrite Hen, Hid. simpl. rewrite lookup_insert_eq.
  repeat split; try done. intros id Hne. by rewrite lookup_insert_ne.
Qed.

Lemma UpdateWalletLabel_success_witness :
  ∃ w serv',
    UpdateWalletLabel Demo.env "wallet.wlt" "savings" Demo.serv0 = (Ok tt, serv') ∧
    GetWallet "wallet.wlt" serv' = (Ok (setLabel w "savings"), serv').
Proof.
  assert (keys_match Demo.serv0) as Hk
    by apply reachable_registry_inv, Demo_serv0_reachable.
  destruct (UpdateWalletLabel Demo.env "wallet.wlt" "savings" Demo.serv0)
    as [r serv'] eqn:Hrun.
  assert (r = Ok tt) as ->.
  { replace r with (fst (UpdateWalletLabel Demo.env "wallet.wlt" "savings" Demo.serv0))
      by by rewrite Hrun.
    vm_compute. reflexivity. }
  destruct (UpdateWalletLabel_success _ _ _ _ _ Hk Hrun) as (w & _ & Hget & _).
  exists w, serv'. split; [reflexivity | exact Hget].
Defined.

(** X12.  UnloadWallet of a wallet that has entries removes that wallet and the
    index entry of its first address, and nothing else: afterwards the
    first address is free again, so that a wallet of the same seed is no
    longer rejected. *)
Theorem UnloadWallet_removes_wallet_and_index_entry serv wltID w addr :
  Config.EnableWalletAPI (config serv) = true →
  wallets serv !! wltID = Some w →
  first_address w = Some addr →
  ∃ serv',
    UnloadWallet wltID serv = (Ok tt, serv') ∧
    wallets serv' = delete wltID (wallets serv) ∧
    firstAddrIDMap serv' = delete addr (firstAddrIDMap serv) ∧
    config serv' = config serv.
Proof.
  intros Hen Hw Ha. unfold first_address in Ha.
  unfold_monad. rewrite Hen, Hw. simpl.
  destruct (Entries w) as [| e es]; [done |]. simplify_eq. simpl.
  eexists. split; [reflexivity |]. by simpl.
Qed.

Lemma UnloadWallet_removes_wallet_and_index_entry_witness :
  ∃ serv',
    UnloadWallet "wallet.wlt" Demo.serv1 = (Ok tt, serv') ∧
    firstAddrIDMap serv' = delete "skycoin:s1" (firstAddrIDMap Demo.serv1).
Proof.
  assert (∃ w, wallets Demo.serv1 !! "wallet.wlt" = Some w ∧
               first_address w = Some "skycoin:s1") as (w & Hw & Ha)
    by (eexists; split; vm_compute; reflexivity).
  destruct (UnloadWallet_removes_wallet_and_index_entry Demo.serv1 "wallet.wlt"
              w "skycoin:s1" eq_refl Hw Ha) as (serv' & Hrun & _ & Hix & _).
  exists serv'. split; [exact Hrun | exact Hix].
Defined.

(** X13.  EncryptWallet followed by DecryptWallet with a password that unlocks
    the encrypted wallet to the original one gives back the original
    wallet and the original service, for a wallet filed under its id that
    keeps its id when locked. *)
Theorem EncryptWallet_then_DecryptWallet env serv wltID password w w1 serv1 :
  wallets serv !! wltID = Some w →
  EncryptWallet env wltID password serv = (Ok w1, serv1) →
  Filename w1 = wltID →
  IsEncrypted w1 = true →
  Unlock env w1 password = Ok w →
  Filename w = wltID →
  Save env w (Config.WalletDir (config serv)) = None →
  DecryptWallet env wltID password serv1 = (Ok w, serv).
Proof.
  intros Hw Henc Hid1 Hlocked Hunlock Hid Hsave.
  assert (serv1 = with_wallets serv (Wallets.set (wallets serv) w1) ∧
          Config.EnableWalletAPI (config serv) = true) as [-> Hen].
  { revert Henc. unfold_monad. split_run; by intros [= <- <-]. }
  unfold_monad. unfold Wallets.set. simpl. rewrite Hen, Hid1. simpl.
  rewrite lookup_insert_eq. simpl. rewrite Hlocked. simpl.
  rewrite Hunlock. simpl. rewrite Hsave. simpl. rewrite Hid.
  f_equal. destruct serv as [wl cf ix]. unfold with_wallets. simpl in *.
  f_equal. rewrite insert_insert_eq. by apply insert_id.
Qed.

Lemma EncryptWallet_then_DecryptWallet_witness :
  ∃ w w1,
    wallets Demo_serv2 !! "wallet.wlt" = Some w ∧
    EncryptWallet Demo.env "wallet.wlt" Demo.pw Demo_serv2 = (Ok w1, Demo.serv1) ∧
    DecryptWallet Demo.env "wallet.wlt" Demo.pw Demo.serv1 = (Ok w, Demo_serv2).
Proof.
  assert (∃ w, wallets Demo_serv2 !! "wallet.wlt" = Some w ∧ Filename w = "wallet.wlt")
    as (w & Hw & Hid) by (eexists; split; vm_compute; reflexivity).
  assert (∃ w1, EncryptWallet Demo.env "wallet.wlt" Demo.pw Demo_serv2
                = (Ok w1, Demo.serv1) ∧ Filename w1 = "wallet.wlt" ∧
                IsEncrypted w1 = true ∧
                Some (Unlock Demo.env w1 Demo.pw)
                = Ok <$> wallets Demo_serv2 !! "wallet.wlt")
    as (w1 & Henc & Hid1 & Hlocked & Hun)
    by (eexists; repeat split; vm_compute; reflexivity).
  rewrite Hw in Hun. simpl in Hun. injection Hun as Hun.
  exists w, w1. split; [exact Hw |]. split; [exact Henc |].
  exact (EncryptWallet_then_DecryptWallet Demo.env Demo_serv2 "wallet.wlt"
           Demo.pw w w1 Demo.serv1 Hw Henc Hid1 Hlocked Hun Hid eq_refl).
Defined.

(** X14.  Two successful label updates of the same wallet leave the service as
    the second update alone would: the last label wins and nothing else
    records the first. *)
Theorem UpdateWalletLabel_last_wins env serv wltID l1 l2 serv1 serv2 serv2' :
  keys_match serv →
  UpdateWalletLabel env wltID l1 serv = (Ok tt, serv1) →
  UpdateWalletLabel env wltID l2 serv1 = (Ok tt, serv2) →
  UpdateWalletLabel env wltID l2 serv = (Ok tt, serv2') →
  serv2' = serv2.
Proof.
  intros Hk H1 H2 H2'.
  assert (∀ l s s', UpdateWalletLabel env wltID l s = (Ok tt, s') →
            ∃ w, wallets s !! wltID = Some w ∧
                 s' = with_wallets s (Wallets.set (wallets s) (setLabel w l)))
    as Hshape.
  { intros l s s'. unfold_monad. split_run; intros [= <-]. eauto. }
  destruct (Hshape _ _ _ H1) as (w & Hw & ->).
  destruct (Hshape _ _ _ H2') as (w' & Hw' & ->).
  destruct (Hshape _ _ _ H2) as (w1 & Hw1 & ->).
  rewrite Hw in Hw'. injection Hw' as <-.
  pose proof (Hk _ _ Hw) as Hid. simpl in Hid.
  unfold Wallets.set in *. simpl in *. rewrite Hid in *.
  rewrite lookup_insert_eq in Hw1. injection Hw1 as <-. simpl.
  rewrite Hid. destruct serv as [wl cf ix]. unfold with_wallets. simpl in *.
  f_equal. by rewrite insert_insert_eq.
Qed.

Lemma UpdateWalletLabel_last_wins_witness :
  snd (UpdateWalletLabel Demo.env "wallet.wlt" "b" Demo.serv0)
  = snd (UpdateWalletLabel Demo.env "wallet.wlt" "b"
           (snd (UpdateWalletLabel Demo.env "wallet.wlt" "a" Demo.serv0))).
Proof.
  assert (∀ l s, fst (UpdateWalletLabel Demo.env "wallet.wlt" l s) = Ok tt →
                 UpdateWalletLabel Demo.env "wallet.wlt" l s
                 = (Ok tt, snd (UpdateWalletLabel Demo.env "wallet.wlt" l s)))
    as Hpair.
  { intros l s Hok. destruct (UpdateWalletLabel _ _ _ _) as [r s']. simpl in *.
    by rewrite Hok. }
  apply (UpdateWalletLabel_last_wins Demo.env Demo.serv0 "wallet.wlt" "a" "b"
           (snd (UpdateWalletLabel Demo.env "wallet.wlt" "a" Demo.serv0))).
  - apply reachable_registry_inv, Demo_serv0_reachable.
  - apply Hpair. vm_compute. reflexivity.
  - apply Hpair. vm_compute. reflexivity.
  - apply Hpair. vm_compute. reflexivity.
Defined.

(** ** Wrong password *)

(** X15.  On an encrypted wallet, when unlocking with the given password fails,
    DecryptWallet, NewAddresses, UpdateSecrets, ViewSecrets and
    GetWalletSeed (seed API enabled) return the error of the unlock; the
    callback is not consulted and the service is unchanged: the wallet
    stays encrypted. *)
Theorem wrong_password_is_reported env serv wltID w password e :
  gate_inv serv →
  wallets serv !! wltID = Some w →
  IsEncrypted w = true →
  Unlock env w password = Fail e →
  DecryptWallet env wltID password serv = (Fail e, serv) ∧
  (∀ num, NewAddresses env wltID password num serv = (Fail e, serv)) ∧
  (∀ f, UpdateSecrets env wltID password f serv = (Fail e, serv) ∧
        ViewSecrets env wltID password f serv = (Fail e, serv)) ∧
  (Config.EnableSeedAPI (config serv) = true →
   GetWalletSeed env wltID password serv = (Fail e, serv)).
Proof.
  intros Hg Hw Henc Hun.
  pose proof (wallet_present_enabled _ _ _ Hg Hw) as Hen.
  unfold_monad. rewrite Hen. simpl. rewrite Hw. simpl. rewrite Henc. simpl.
  rewrite Hun. simpl. repeat split. intros ->. simpl.
  by rewrite Hw, Henc, Hun.
Qed.

Lemma wrong_password_is_reported_witness :
  DecryptWallet Demo.env "wallet.wlt" [Byte.x78] Demo.serv1
  = (Fail ErrInvalidPassword, Demo.serv1) ∧
  GetWalletSeed Demo.env "wallet.wlt" [Byte.x78] Demo.serv1
  = (Fail ErrInvalidPassword, Demo.serv1).
Proof.
  assert (∃ w, wallets Demo.serv1 !! "wallet.wlt" = Some w ∧ IsEncrypted w = true ∧
               Unlock Demo.env w [Byte.x78] = Fail ErrInvalidPassword)
    as (w & Hw & Henc & Hun) by (eexists; repeat split; vm_compute; reflexivity).
  destruct (wrong_password_is_reported Demo.env Demo.serv1 "wallet.wlt" w
              [Byte.x78] ErrInvalidPassword
              (reachable_gate_inv any_callback _ (Demo_serv1_reachable _))
              Hw Henc Hun) as (Hdec & _ & _ & Hseed).
  split; [exact Hdec | exact (Hseed eq_refl)].
Defined.

(** ** The seed API *)

(** X16.  With the seed API disabled GetWalletSeed returns ErrSeedAPIDisabled
    for every id and password, whether or not the wallet exists. *)
Theorem GetWalletSeed_seed_api_disabled env serv wltID password :
  Config.EnableWalletAPI (config serv) = true →
  Config.EnableSeedAPI (config serv) = false →
  GetWalletSeed env wltID password serv = (Fail ErrSeedAPIDisabled, serv).
Proof.
  intros Hen Hseed. unfold_monad. rewrite Hen. simpl. by rewrite Hseed.
Qed.

Lemma GetWalletSeed_seed_api_disabled_witness :
  GetWalletSeed Demo.env "wallet.wlt" Demo.pw Demo_serv_noseed
  = (Fail ErrSeedAPIDisabled, Demo_serv_noseed).
Proof.
  apply GetWalletSeed_seed_api_disabled; reflexivity.
Defined.

(** X17.  GetWalletSeed fails with ErrWalletNotEncrypted on an unencrypted
    wallet, and when it succeeds the seed is the one of the wallet that
    unlocking the stored wallet with the password gives. *)
Theorem GetWalletSeed_result env serv wltID password :
  Config.EnableWalletAPI (config serv) = true →
  Config.EnableSeedAPI (config serv) = true →
  (wallets serv !! wltID = None →
   GetWalletSeed env wltID password serv = (Fail ErrWalletNotExist, serv)) ∧
  (∀ w, wallets serv !! wltID = Some w → IsEncrypted w = false →
   GetWalletSeed env wltID password serv = (Fail ErrWalletNotEncrypted, serv)) ∧
  (∀ w wlt, wallets serv !! wltID = Some w → IsEncrypted w = true →
   Unlock env w password = Ok wlt →
   GetWalletSeed env wltID password serv = (Ok (seed wlt), serv)).
Proof.
  intros Hen Hseed. unfold_monad. rewrite Hen. simpl. rewrite Hseed. simpl.
  repeat split.
  - by intros ->.
  - by intros w -> ->.
  - by intros w wlt -> -> ->.
Qed.

Lemma GetWalletSeed_result_witness :
  GetWalletSeed Demo.env "wallet.wlt" Demo.pw Demo.serv0
  = (Fail ErrWalletNotEncrypted, Demo.serv0) ∧
  GetWalletSeed Demo.env "wallet.wlt" Demo.pw Demo.serv1 = (Ok "s1", Demo.serv1).
Proof.
  destruct (GetWalletSeed_result Demo.env Demo.serv0 "wallet.wlt" Demo.pw
              eq_refl eq_refl) as (_ & Hplain & _).
  destruct (GetWalletSeed_result Demo.env Demo.serv1 "wallet.wlt" Demo.pw
              eq_refl eq_refl) as (_ & _ & Hlocked).
  split.
  - eapply Hplain; vm_compute; reflexivity.
  - assert (∃ w wlt, wallets Demo.serv1 !! "wallet.wlt" = Some w ∧
                     IsEncrypted w = true ∧ Unlock Demo.env w Demo.pw = Ok wlt ∧
                     seed wlt = "s1") as (w & wlt & Hw & Henc & Hun & Hs)
      by (do 2 eexists; repeat split; vm_compute; reflexivity).
    rewrite <- Hs. exact (Hlocked w wlt Hw Henc Hun).
Defined.

(** ** Preconditions of RecoverWallet *)

(** X18.  RecoverWallet checks, in this order: the wallet exists
    (ErrWalletNotExist), is encrypted (ErrWalletNotEncrypted), is
    deterministic (ErrWalletNotDeterministic), the key pair can be derived
    from the seed (the error of the derivation); each failure leaves the
    service unchanged. *)
Theorem RecoverWallet_precondition_errors env serv wltName sd password :
  Config.EnableWalletAPI (config serv) = true →
  (wallets serv !! wltName = None →
   RecoverWallet env wltName sd password serv = (Fail ErrWalletNotExist, serv)) ∧
  (∀ w, wallets serv !! wltName = Some w → IsEncrypted w = false →
   RecoverWallet env wltName sd password serv
   = (Fail ErrWalletNotEncrypted, serv)) ∧
  (∀ w, wallets serv !! wltName = Some w → IsEncrypted w = true →
   walletType w ≠ WalletTypeDeterministic →
   RecoverWallet env wltName sd password serv
   = (Fail ErrWalletNotDeterministic, serv)) ∧
  (∀ w e, wallets serv !! wltName = Some w → IsEncrypted w = true →
   walletType w = WalletTypeDeterministic →
   GenerateDeterministicKeyPair env (String.list_byte_of_string sd) = Fail e →
   RecoverWallet env wltName sd password serv = (Fail e, serv)).
Proof.
  intros Hen. unfold_monad. rewrite Hen. simpl. repeat split.
  - by intros ->.
  - by intros w -> ->.
  - intros w -> -> Hty. simpl. by rewrite bool_decide_eq_false_2.
  - intros w e -> -> Hty ->. simpl. by rewrite bool_decide_eq_true_2.
Qed.

Lemma RecoverWallet_precondition_errors_witness :
  RecoverWallet Demo.env "wallet.wlt" "s1" [] Demo.serv0
  = (Fail ErrWalletNotEncrypted, Demo.serv0) ∧
  RecoverWallet Demo.env "wallet.wlt" "" [] Demo.serv1
  = (Fail (Errorf "seed is empty"), Demo.serv1).
Proof.
  destruct (RecoverWallet_precondition_errors Demo.env Demo.serv0 "wallet.wlt"
              "s1" [] eq_refl) as (_ & Hplain & _).
  destruct (RecoverWallet_precondition_errors Demo.env Demo.serv1 "wallet.wlt"
              "" [] eq_refl) as (_ & _ & _ & Hkey).
  split.
  - eapply Hplain; vm_compute; reflexivity.
  - eapply Hkey; vm_compute; reflexivity.
Defined.

(** ** Properties of every reachable state *)

(** X19.  No operation changes the config of the service. *)
Theorem operations_keep_config env op serv serv' :
  exec env op serv = Some serv' → config serv' = config serv.
Proof. apply exec_config. Qed.

Lemma operations_keep_config_witness :
  config Demo.serv_swapped = config Demo.serv0.
Proof.
  apply (operations_keep_config Demo.env
           (OpUpdate "wallet.wlt" Demo.swapEntries) Demo.serv0 Demo.serv_swapped).
  reflexivity.
Defined.

Lemma reachable_disabled_index P serv :
  reachable P serv →
  Config.EnableWalletAPI (config serv) = false → firstAddrIDMap serv = ∅.
Proof.
  induction 1 as [env c serv Henv Hnew | env op serv serv' _ IH Henv Hcb Hex].
  - intros Hoff. rewrite (NewService_config _ _ _ Hnew) in Hoff.
    unfold NewService in Hnew. simpl in Hnew. rewrite Hoff in Hnew.
    simpl in Hnew. by simplify_eq.
  - intros Hoff. rewrite (exec_config _ _ _ _ Hex) in Hoff.
    rewrite (exec_disabled _ _ _ _ Hoff Hex). by apply IH.
Qed.

(** X20.  A service initialized with the wallet API disabled holds no wallet and
    no index entry, and no sequence of operations, whatever the
    callbacks, ever puts one in. *)
Theorem disabled_service_stays_empty serv :
  reachable any_callback serv →
  Config.EnableWalletAPI (config serv) = false →
  wallets serv = ∅ ∧ firstAddrIDMap serv = ∅.
Proof.
  intros Hreach Hoff. split.
  - by apply (reachable_gate_inv _ _ Hreach).
  - by apply (reachable_disabled_index _ _ Hreach).
Qed.

Lemma disabled_service_stays_empty_witness :
  let serv :=
    default Demo.serv_off
      (exec Demo.env (OpCreateWallet 3 "" (Demo.skyOptions "s1" "first") Demo.bg)
         Demo.serv_off) in
  wallets serv = ∅ ∧ firstAddrIDMap serv = ∅.
Proof.
  intros serv. apply disabled_service_stays_empty; [| reflexivity].
  eapply (reachable_step _ Demo.env
            (OpCreateWallet 3 "" (Demo.skyOptions "s1" "first") Demo.bg)
            Demo.serv_off).
  - eapply (reachable_init _ Demo.env NewConfig);
      [apply Demo_env_ok | vm_compute; reflexivity].
  - apply Demo_env_ok.
  - exact I.
  - reflexivity.
Defined.

(** X21.  In every state reachable with callbacks that keep the identity of the
    wallet, no wallet of the registry is empty and no two wallets share a
    first address. *)
Theorem reachable_wallets_distinct_seeds serv id1 id2 w1 w2 :
  reachable keeps_identity serv →
  wallets serv !! id1 = Some w1 →
  wallets serv !! id2 = Some w2 →
  Entries w1 ≠ [] ∧
  (first_address w1 = first_address w2 → id1 = id2).
Proof.
  intros Hreach Hw1 Hw2.
  apply reachable_registry_inv in Hreach as (_ & [Hwi _] & _).
  pose proof (Hwi _ _ Hw1) as H1. pose proof (Hwi _ _ Hw2) as H2. simpl in *.
  apply bind_Some in H1 as (a1 & Ha1 & Hi1).
  apply bind_Some in H2 as (a2 & Ha2 & Hi2).
  split.
  - unfold first_address in Ha1. by destruct (Entries w1).
  - rewrite Ha1, Ha2. intros [= ->]. congruence.
Qed.

Lemma reachable_wallets_distinct_seeds_witness :
  ∃ w, wallets Demo.serv1 !! "wallet.wlt" = Some w ∧ Entries w ≠ [].
Proof.
  assert (∃ w, wallets Demo.serv1 !! "wallet.wlt" = Some w) as [w Hw]
    by (eexists; vm_compute; reflexivity).
  exists w. split; [exact Hw |].
  exact (proj1 (reachable_wallets_distinct_seeds Demo.serv1 "wallet.wlt"
                  "wallet.wlt" w w (Demo_serv1_reachable _) Hw Hw)).
Defined.

(** ** Initialization *)

Lemma NoDup_first_addresses_inj l id1 id2 w1 w2 addr :
  NoDup (first_addresses l) →
  NoDup l.*1 →
  (id1, w1) ∈ l → (id2, w2) ∈ l →
  first_address w1 = Some addr → first_address w2 = Some addr →
  id1 = id2.
Proof.
  induction l as [| [id0 w0] l IHl]; intros Hnd Hkeys H1 H2 Ha1 Ha2.
  - by destruct (not_elem_of_nil _ H1).
  - unfold first_addresses in Hnd. simpl in Hnd. fold (first_addresses l) in Hnd.
    simpl in Hkeys.
    assert (∀ id w, (id, w) ∈ l → first_address w = Some addr →
                    first_address w0 = Some addr → False) as Hclash.
    { intros id w Hin Ha Ha0. rewrite Ha0 in Hnd.
      apply NoDup_cons_1_1 in Hnd. apply Hnd.
      unfold first_addresses. apply list_elem_of_omap. by exists (id, w). }
    apply elem_of_cons in H1 as [E1 | H1]; apply elem_of_cons in H2 as [E2 | H2].
    + congruence.
    + injection E1 as -> ->. by destruct (Hclash _ _ H2 Ha2 Ha1).
    + injection E2 as -> ->. by destruct (Hclash _ _ H1 Ha1 Ha2).
    + apply IHl; try done; [| by apply NoDup_cons_1_2 in Hkeys].
      destruct (first_address w0); [by apply NoDup_cons_1_2 in Hnd | done].
Qed.

Lemma containsDuplicate_from_complete seen l :
  NoDup (first_addresses l) →
  (∀ addr, addr ∈ first_addresses l → addr ∉ seen) →
  Wallets.containsDuplicate_from seen l = None.
Proof.
  revert seen. induction l as [| [id0 w0] l IHl]; intros seen Hnd Hfresh;
    simpl; [done |].
  unfold first_addresses, first_address in *. simpl in *.
  destruct (Entries w0) as [| e es]; simpl in *.
  - by apply IHl.
  - rewrite decide_False by (apply Hfresh, elem_of_cons; by left).
    apply IHl; [by apply NoDup_cons_1_2 in Hnd |].
    intros addr Hin [Heq%elem_of_singleton | Hs]%elem_of_union.
    + subst. by apply NoDup_cons_1_1 in Hnd.
    + apply (Hfresh addr); [apply elem_of_cons; by right | done].
Qed.

(** X22.  When the wallet API is enabled and NewService succeeds, the wallets
    of the service are exactly those LoadWallets returned, the config is
    the one given, none of the wallets is empty, no two of them share a
    first address, and the index holds exactly one entry per wallet, from
    its first address to the key it was loaded under. *)
Theorem NewService_success env c serv :
  Config.EnableWalletAPI c = true →
  NewService env c = Ok serv →
  LoadWallets env (Config.WalletDir c) = Ok (wallets serv) ∧
  config serv = c ∧
  index_inv serv ∧
  (∀ id w, wallets serv !! id = Some w → Entries w ≠ []) ∧
  (∀ id1 id2 w1 w2,
     wallets serv !! id1 = Some w1 → wallets serv !! id2 = Some w2 →
     first_address w1 = first_address w2 → id1 = id2).
Proof.
  intros Hen Hnew. pose proof (NewService_config _ _ _ Hnew) as Hcfg.
  revert Hnew. unfold NewService. simpl. rewrite Hen. simpl.
  destruct (MkdirAll env _); [done |].
  destruct (removeBackupFiles env _); [done |].
  destruct (LoadWallets env _) as [wlts | |] eqn:Hload; [| done | done].
  destruct (Wallets.containsDuplicate wlts) as [[? ?] |] eqn:Hdup; [done |].
  destruct (Wallets.containsEmpty wlts) eqn:Hemp; [done |].
  unfold setWallets. unfold_monad. simpl.
  rewrite setWallets_range_run by done. simpl. intros [= <-]. simpl.
  apply containsDuplicate_from_None in Hdup as [Hnd _].
  pose proof (containsEmpty_from_None _ Hemp) as Hne.
  assert (wallets_indexed
            {| wallets := wlts; config := c;
               firstAddrIDMap := index_of (map_to_list wlts) ∅ |}) as Hwi.
  { intros id w Hw. simpl in *.
    assert ((id, w) ∈ map_to_list wlts) as Hin by by apply elem_of_map_to_list.
    destruct (Hne _ _ Hin) as [addr Ha]. rewrite Ha. simpl.
    apply index_of_lookup; [done |]. left. eauto. }
  split; [done |]. split; [done |]. split; [split; [done |] |]; [| split].
  - intros addr id Hi. simpl in *.
    apply index_of_lookup in Hi as [(w & Hin & Ha) | [_ Hl]]; [| | done].
    + apply elem_of_map_to_list in Hin. by rewrite Hin.
    + by rewrite lookup_empty in Hl.
  - intros id w Hw Hent. specialize (Hwi _ _ Hw). simpl in Hwi.
    unfold first_address in Hwi. by rewrite Hent in Hwi.
  - intros id1 id2 w1 w2 Hw1 Hw2 Heq.
    pose proof (Hwi _ _ Hw1) as H1. pose proof (Hwi _ _ Hw2) as H2. simpl in *.
    apply bind_Some in H1 as (a1 & Ha1 & Hi1).
    apply bind_Some in H2 as (a2 & Ha2 & Hi2).
    rewrite Ha1, Ha2 in Heq. injection Heq as ->. congruence.
Qed.

Lemma NewService_success_witness :
  LoadWallets Demo.env (Config.WalletDir Demo.enabled) = Ok (wallets Demo.serv0) ∧
  config Demo.serv0 = Demo.enabled ∧
  index_inv Demo.serv0.
Proof.
  destruct (NewService_success Demo.env Demo.enabled Demo.serv0 eq_refl
              Demo_serv0_init) as (Hload & Hcfg & Hinv & _).
  split; [exact Hload |]. split; [exact Hcfg | exact Hinv].
Defined.

(** X23.  NewService refuses to start, with an error, when the directory cannot
    be created, the backup files cannot be removed, the wallets cannot be
    loaded, a loaded wallet has no entries, or two loaded wallets have the
    same first address. *)
Theorem NewService_refuses env c :
  Config.EnableWalletAPI c = true →
  (is_Some (MkdirAll env (Config.WalletDir c)) ∨
   is_Some (removeBackupFiles env (Config.WalletDir c)) ∨
   (∃ e, LoadWallets env (Config.WalletDir c) = Fail e) ∨
   (∃ wlts id w,
      LoadWallets env (Config.WalletDir c) = Ok wlts ∧
      wlts !! id = Some w ∧ Entries w = []) ∨
   (∃ wlts id1 id2 w1 w2 addr,
      LoadWallets env (Config.WalletDir c) = Ok wlts ∧
      wlts !! id1 = Some w1 ∧ wlts !! id2 = Some w2 ∧ id1 ≠ id2 ∧
      first_address w1 = Some addr ∧ first_address w2 = Some addr)) →
  ∃ e, NewService env c = Fail e.
Proof.
  intros Hen Hbad. unfold NewService. simpl. rewrite Hen. simpl.
  destruct (MkdirAll env _) as [e1 |]; [by eexists |].
  destruct (removeBackupFiles env _) as [e2 |]; [by eexists |].
  destruct Hbad as [[? [=]] | [[? [=]] | Hbad]].
  destruct (LoadWallets env _) as [wlts | e3 |] eqn:Hload.
  2: by eexists.
  2: { destruct Hbad as [[? [=]] | [(? & ? & ? & [=] & _) | (? & ? & ? & ? & ? & ? & [=] & _)]]. }
  destruct (Wallets.containsDuplicate wlts) as [[? ?] |] eqn:Hdup; [by eexists |].
  destruct (Wallets.containsEmpty wlts) eqn:Hemp; [by eexists |].
  exfalso.
  apply containsDuplicate_from_None in Hdup as [Hnd _].
  pose proof (containsEmpty_from_None _ Hemp) as Hne.
  destruct Hbad as [[? [=]] | [(wl & id & w & [= <-] & Hw & Hent)
                              | (wl & id1 & id2 & w1 & w2 & addr & [= <-] & Hw1 & Hw2 & Hneq & Ha1 & Ha2)]].
  - apply elem_of_map_to_list in Hw. destruct (Hne _ _ Hw) as [a Ha].
    unfold first_address in Ha. by rewrite Hent in Ha.
  - apply Hneq.
    apply (NoDup_first_addresses_inj (map_to_list wlts) id1 id2 w1 w2 addr Hnd
             (NoDup_fst_map_to_list _));
      [by apply elem_of_map_to_list | by apply elem_of_map_to_list | done | done].
Qed.

Lemma setWallets_range_panics l serv :
  is_Some (Wallets.containsEmpty_from l) →
  fst (setWallets_range l serv) = Panic.
Proof.
  revert serv. induction l as [| [id0 w0] l IHl]; intros serv [id Hid];
    simpl in *; [done |].
  unfold_monad. unfold firstAddr.
  destruct (Entries w0) as [| e es]; [done |]. simpl.
  specialize (IHl (with_firstAddrIDMap serv
                     (<[cipher.String (Address e) := id0]> (firstAddrIDMap serv)))
                  (ex_intro _ id Hid)).
  destruct (setWallets_range l _) as [[| |] ?]; simpl in *; done.
Qed.

(** X24.  [setWallets] panics when one of the wallets has no entries; NewService
    never reaches it with such a set. *)
Theorem setWallets_panics_on_empty_wallet wlts serv id w :
  wlts !! id = Some w →
  Entries w = [] →
  fst (setWallets wlts serv) = Panic.
Proof.
  intros Hw Hent. unfold setWallets. unfold_monad. simpl.
  pose proof (setWallets_range_panics (map_to_list wlts) (with_wallets serv wlts))
    as Hp.
  destruct (setWallets_range _ _) as [r s]. simpl in *. rewrite Hp; [done |].
  destruct (Wallets.containsEmpty_from (map_to_list wlts)) eqn:Hemp; [by eexists |].
  apply elem_of_map_to_list in Hw.
  destruct (containsEmpty_from_None _ Hemp _ _ Hw) as [a Ha].
  unfold first_address in Ha. by rewrite Hent in Ha.
Qed.

Lemma setWallets_panics_on_empty_wallet_witness :
  fst (setWallets {[ "damaged.wlt" := Demo_emptyWallet "damaged.wlt" ]} Demo.serv0)
  = Panic.
Proof.
  apply (setWallets_panics_on_empty_wallet _ Demo.serv0 "damaged.wlt"
           (Demo_emptyWallet "damaged.wlt")).
  - vm_compute. reflexivity.
  - reflexivity.
Defined.

Lemma NewService_refuses_witness :
  ∃ e, NewService Demo_env_bad Demo.enabled = Fail e.
Proof.
  apply NewService_refuses; [reflexivity |].
  left. eexists. reflexivity.
Defined.

Lemma containsEmpty_from_complete l :
  (∀ id w, (id, w) ∈ l → Entries w ≠ []) →
  Wallets.containsEmpty_from l = None.
Proof.
  induction l as [| [id0 w0] l IHl]; intros Hne; simpl; [done |].
  destruct (Entries w0) eqn:Hent.
  - destruct (Hne id0 w0); [apply elem_of_cons; by left | done].
  - apply IHl. intros id w Hin. apply (Hne id). apply elem_of_cons. by right.
Qed.

Lemma NoDup_first_addresses l :
  NoDup l.*1 →
  (∀ id1 id2 w1 w2 addr,
     (id1, w1) ∈ l → (id2, w2) ∈ l →
     first_address w1 = Some addr → first_address w2 = Some addr → id1 = id2) →
  NoDup (first_addresses l).
Proof.
  induction l as [| [id0 w0] l IHl]; intros Hkeys Hinj.
  - apply NoDup_nil_2.
  - simpl in Hkeys.
    assert (NoDup (first_addresses l)) as Hrest.
    { apply IHl; [by apply NoDup_cons_1_2 in Hkeys |].
      intros id1 id2 w1 w2 addr H1 H2. apply Hinj; apply elem_of_cons; by right. }
    unfold first_addresses. simpl. fold (first_addresses l).
    destruct (first_address w0) as [a0 |] eqn:Ha0; [| done].
    apply NoDup_cons_2; [| done].
    intros ([id w] & Hin & Ha)%list_elem_of_omap. simpl in Ha.
    assert (id0 = id) as <-.
    { apply (Hinj id0 id w0 w a0); try done; apply elem_of_cons;
        [by left | by right]. }
    apply NoDup_cons_1_1 in Hkeys. apply Hkeys.
    apply list_elem_of_fmap. by exists (id0, w).
Qed.

(** X25.  NewService accepts every valid directory: when the directory can be
    created and cleaned, and the loaded wallets are all non-empty with
    pairwise different first addresses, NewService returns a service
    holding exactly the loaded wallets. *)
Theorem NewService_accepts env c wlts :
  Config.EnableWalletAPI c = true →
  MkdirAll env (Config.WalletDir c) = None →
  removeBackupFiles env (Config.WalletDir c) = None →
  LoadWallets env (Config.WalletDir c) = Ok wlts →
  (∀ id w, wlts !! id = Some w → Entries w ≠ []) →
  (∀ id1 id2 w1 w2 addr,
     wlts !! id1 = Some w1 → wlts !! id2 = Some w2 →
     first_address w1 = Some addr → first_address w2 = Some addr → id1 = id2) →
  ∃ serv, NewService env c = Ok serv ∧ wallets serv = wlts ∧ config serv = c.
Proof.
  intros Hen Hmk Hrm Hload Hne Hinj.
  assert (Wallets.containsEmpty wlts = None) as Hemp.
  { apply containsEmpty_from_complete. intros id w Hin.
    apply (Hne id). by apply elem_of_map_to_list. }
  assert (Wallets.containsDuplicate wlts = None) as Hdup.
  { apply containsDuplicate_from_complete.
    - apply NoDup_first_addresses; [apply NoDup_fst_map_to_list |].
      intros id1 id2 w1 w2 addr H1 H2.
      apply Hinj; by apply elem_of_map_to_list.
    - intros addr _. apply not_elem_of_empty. }
  unfold NewService. simpl. rewrite Hen. simpl. rewrite Hmk, Hrm, Hload, Hdup, Hemp.
  unfold setWallets. unfold_monad. simpl.
  rewrite setWallets_range_run by done. simpl. by eexists.
Qed.

Lemma NewService_accepts_witness :
  ∃ serv, NewService Demo.env Demo.enabled = Ok serv ∧
          wallets serv = Demo.onDisk ∧ config serv = Demo.enabled.
Proof.
  assert (∀ id w, Demo.onDisk !! id = Some w →
                  id = "wallet.wlt" ∧ first_address w = Some "skycoin:s1")
    as Hone.
  { intros id w. unfold Demo.onDisk.
    destruct (Demo.newWallet "wallet.wlt" _) as [w0 | |] eqn:Hnew;
      try (intros H; by rewrite lookup_empty in H).
    intros [<- <-]%lookup_singleton_Some. split; [done |].
    revert Hnew. vm_compute. by intros [= <-]. }
  apply NewService_accepts; try reflexivity.
  - intros id w Hw. destruct (Hone _ _ Hw) as [_ Ha].
    unfold first_address in Ha. by destruct (Entries w).
  - intros id1 id2 w1 w2 addr H1 H2 _ _.
    destruct (Hone _ _ H1) as [-> _]. by destruct (Hone _ _ H2) as [-> _].
Defined.
